(** * Lietuvio kelias: the SRS scheduler and the pronunciation cache

    A shallow embedding of the algorithmic core of the repository:

    - the cache-key derivation [generateTextKey], present three times in the
      sources (browser client, main server, [get_sound.js]);
    - the spaced-repetition code of [SRSSystem] and [VocabularyData];
    - the resolution protocol of [LithuanianTTSClient] ([speak],
      [checkCacheDirectly], [getAudioUrl], [fallbackSpeak]);
    - the request cache of [EnhancedAudioManager];
    - the batch generation of [get_sound.js] ([quickStart],
      [generateVocabularyAudio]).

    JavaScript strings are sequences of UTF-16 code units; they are modelled
    as [list N].  Numbers that the code uses as integers are modelled as [Z],
    the one fractional quantity (the interval multiplier) as a rational. *)

From Stdlib Require Import ZArith NArith Lia.
From Stdlib Require QArith Qround.
From stdpp Require Import gmap strings list fin_maps sorting.

(** ** JavaScript strings *)

Abbreviation jsstring := (list N).

(** The code units of an ASCII literal. *)
Fixpoint units (s : string) : jsstring :=
  match s with
  | EmptyString => []
  | String a r => Ascii.N_of_ascii a :: units r
  end.

(** [String.prototype.toLowerCase] restricted to Basic Latin, Latin-1
    Supplement and Latin Extended-A (U+0000..U+017F), the blocks that hold
    the Lithuanian alphabet.  The mapping is the Unicode default one; U+0130
    is the only unit of the range that lowercases to two units.  Units above
    U+017F are left as they are, so this function agrees with the built-in
    only on strings within the range.  The general theorems below do not use
    it: they hold for every lowercasing function. *)
Definition lowerUnit (c : N) : jsstring :=
  (if (65 <=? c) && (c <=? 90) then [c + 32]
   else if (192 <=? c) && (c <=? 222) && negb (c =? 215) then [c + 32]
   else if (256 <=? c) && (c <=? 303) then [if N.even c then c + 1 else c]
   else if c =? 304 then [105; 775]
   else if (306 <=? c) && (c <=? 311) then [if N.even c then c + 1 else c]
   else if (313 <=? c) && (c <=? 328) then [if N.odd c then c + 1 else c]
   else if (330 <=? c) && (c <=? 375) then [if N.even c then c + 1 else c]
   else if c =? 376 then [255]
   else if (377 <=? c) && (c <=? 382) then [if N.odd c then c + 1 else c]
   else [c])%N.

Definition toLowerCaseLatin (s : jsstring) : jsstring := s ≫= lowerUnit.

(** [s.replace(/c/g, r)] for a one-unit pattern and a one-unit replacement:
    every occurrence of the unit is replaced. *)
Definition replaceAll (c r : N) (s : jsstring) : jsstring :=
  (λ x, if (x =? c)%N then r else x) <$> s.

(** [s.replace(/[^a-z]/g, '')]: every unit outside a..z is dropped. *)
Definition stripNonLower (s : jsstring) : jsstring :=
  filter (λ x, (97 ≤ x ≤ 122)%N) s.

(** [s.substring(0, n)]. *)
Definition substring0 (n : nat) (s : jsstring) : jsstring := take n s.

(** ** Key derivation, as written in each of the three sources *)

(** [LithuanianTTSClient.generateTextKey] (browser client). *)
Module Client.
Section Key.
Variable toLowerCase : jsstring → jsstring.

Definition generateTextKey (text : jsstring) : jsstring :=
  substring0 50
    (stripNonLower
      (replaceAll 382 122    (* ž -> z *)
      (replaceAll 363 117    (* ū -> u *)
      (replaceAll 371 117    (* ų -> u *)
      (replaceAll 353 115    (* š -> s *)
      (replaceAll 303 105    (* į -> i *)
      (replaceAll 279 101    (* ė -> e *)
      (replaceAll 281 101    (* ę -> e *)
      (replaceAll 269 99     (* č -> c *)
      (replaceAll 261 97     (* ą -> a *)
      (toLowerCase text))))))))))).
End Key.
End Client.

(** [generateTextKey] of the main server (port 8080). *)
Module MainServer.
Section Key.
Variable toLowerCase : jsstring → jsstring.

Definition generateTextKey (text : jsstring) : jsstring :=
  let s := toLowerCase text in
  let s := replaceAll 261 97 s in
  let s := replaceAll 269 99 s in
  let s := replaceAll 281 101 s in
  let s := replaceAll 279 101 s in
  let s := replaceAll 303 105 s in
  let s := replaceAll 353 115 s in
  let s := replaceAll 371 117 s in
  let s := replaceAll 363 117 s in
  let s := replaceAll 382 122 s in
  let s := stripNonLower s in
  substring0 50 s.
End Key.
End MainServer.

(** [generateTextKey] of [get_sound.js] (TTS server side). *)
Module GetSound.
Section Key.
Variable toLowerCase : jsstring → jsstring.

Definition generateTextKey (text : jsstring) : jsstring :=
  substring0 50
    (stripNonLower
      (replaceAll 382 122
      (replaceAll 363 117
      (replaceAll 371 117
      (replaceAll 353 115
      (replaceAll 303 105
      (replaceAll 279 101
      (replaceAll 281 101
      (replaceAll 269 99
      (replaceAll 261 97
      (toLowerCase text))))))))))).
End Key.
End GetSound.

Definition isLowerAscii (c : N) : Prop := (97 ≤ c ≤ 122)%N.

(** ** Spaced repetition: [SRSSystem] and [VocabularyData] *)

Module SRS.
Local Open Scope Z_scope.

(** Dates are epoch milliseconds: the code stores [toISOString()] values and
    reads them back with [new Date(...)].  The fields of a word that the SRS
    code never reads (english, partOfSpeech, tags, ...) are left out. *)
Record SrsData := {
  level : Z;
  nextReview : Z;
  totalReviews : Z;
  correctAnswers : Z;
  lastReviewed : option Z
}.

Record Word := {
  id : string;
  lithuanian : jsstring;
  srsData : SrsData
}.

(** [arr[i]] for a numeric [i]: [undefined] (here [None]) unless [i] is an
    index of the array. *)
Definition index (arr : list Z) (i : Z) : option Z :=
  if 0 <=? i then arr !! Z.to_nat i else None.

(** [a || b] where [a] is a number or [undefined]. *)
Definition orElse (a : option Z) (b : Z) : Z :=
  match a with
  | Some v => if v =? 0 then b else v
  | None => b
  end.

Definition intervals : list Z := [1; 2; 4; 8; 16; 32; 64; 128; 256; 512].
Definition maxLevel : Z := 10.

Record Review := {
  newLevel : Z;
  nextReviewDate : Z;
  intervalDays : Z
}.

Section Clock.
(** [new Date()] and the calendar arithmetic of [setDate(getDate() + d)],
    which depends on the local time zone. *)
Variable now : Z.
Variable addDays : Z → Z → Z.

(** [SRSSystem.calculateNextReview]; the multiplier is a rational. *)
Definition calculateNextReview (currentLevel : Z) (correct : bool)
    (streakMultiplier : QArith_base.Q) : Review :=
  let newLevel :=
    if correct then Z.min (currentLevel + 1) maxLevel
    else Z.max 1 (currentLevel - 2) in
  let baseInterval :=
    orElse (index intervals (newLevel - 1))
           (nth (length intervals - 1) intervals 0) in
  let actualInterval :=
    Qround.Qfloor
      (QArith_base.Qmult (QArith_base.inject_Z baseInterval) streakMultiplier) in
  {| newLevel := newLevel;
     nextReviewDate := addDays now actualInterval;
     intervalDays := actualInterval |}.

(** The state of a [VocabularyData] object: the [words] array and the
    [vocabularyWords] item of localStorage ([None] while never written;
    the JSON text is represented by the list it encodes). *)
Record VocabularyData := {
  words : list Word;
  stored : option (list Word)
}.

(** The assignments of [updateWordSRS] to the word that was found. *)
Definition reviewed (correct : bool) (word : Word) : Word :=
  let sd := srsData word in
  let total := totalReviews sd + 1 in
  let correctAnswers' :=
    if correct then correctAnswers sd + 1 else correctAnswers sd in
  let level' :=
    if correct then Z.min (level sd + 1) 10 else Z.max (level sd - 1) 1 in
  let daysUntilNext := orElse (index intervals (level' - 1)) 512 in
  {| id := id word;
     lithuanian := lithuanian word;
     srsData := {| level := level';
                   nextReview := addDays now daysUntilNext;
                   totalReviews := total;
                   correctAnswers := correctAnswers';
                   lastReviewed := Some now |} |}.

(** The array after the first element that satisfies [p] was mutated. *)
Fixpoint mutateFirst (p : Word → bool) (f : Word → Word) (l : list Word)
    : list Word :=
  match l with
  | [] => []
  | w :: r => if p w then f w :: r else w :: mutateFirst p f r
  end.

(** [VocabularyData.updateWordSRS]: the returned boolean and the state
    after the call. *)
Definition updateWordSRS (wordId : string) (correct : bool)
    (vd : VocabularyData) : bool * VocabularyData :=
  let found := λ w : Word, String.eqb (id w) wordId in
  match List.find found (words vd) with
  | None => (false, vd)
  | Some _ =>
      let words' := mutateFirst found (reviewed correct) (words vd) in
      (true, {| words := words'; stored := Some words' |})
  end.
End Clock.

(** *** Arrays on the heap

    [suggestStudySession] receives an array reference, sorts that array and
    allocates another one for its result; arrays therefore live in a store
    indexed by references. *)
Abbreviation ref := nat.
Abbreviation heap := (gmap nat (list Word)).

(** The comparator handed to [sort]. *)
Definition compareWords (a b : Word) : Z :=
  if negb (level (srsData a) =? level (srsData b))
  then level (srsData a) - level (srsData b)
  else nextReview (srsData a) - nextReview (srsData b).

(** [Array.prototype.sort(comparefn)].  ECMAScript requires the sort to be
    stable and, for a consistent comparator, to produce the sorted order;
    that array is unique, so any stable algorithm computes it.  This one
    inserts from the right, placing an element before the elements it does
    not exceed. *)
Fixpoint insertSorted {A} (cmp : A → A → Z) (x : A) (l : list A) : list A :=
  match l with
  | [] => [x]
  | y :: r => if cmp x y <=? 0 then x :: y :: r else y :: insertSorted cmp x r
  end.

Definition arraySort {A} (cmp : A → A → Z) (l : list A) : list A :=
  foldr (insertSorted cmp) [] l.

(** [arr.slice(0, end)] for an integral [end]; a negative [end] counts from
    the end of the array. *)
Definition slice0 {A} (l : list A) (end_ : Z) : list A :=
  let len := Z.of_nat (length l) in
  let final := if end_ <? 0 then Z.max (len + end_) 0 else Z.min end_ len in
  take (Z.to_nat final) l.

(** The message of a session, before it is formatted as text. *)
Inductive Message :=
  | NothingDue
  | Ready (count : nat) (more : option Z).

Record Session := {
  recommended : ref;
  totalDue : option nat;
  message : Message
}.

(** [SRSSystem.suggestStudySession]: [None] when [dueWords] is not an array
    of the store. *)
Definition suggestStudySession (dueWords : ref) (targetSessionLength : Z)
    (h : heap) : option (Session * heap) :=
  arr ← h !! dueWords;
  let fresh_ref := fresh (dom h) in
  if bool_decide (length arr = 0%nat) then
    Some ({| recommended := fresh_ref; totalDue := None; message := NothingDue |},
          <[fresh_ref := []]> h)
  else
    let sorted := arraySort compareWords arr in
    let h1 := <[dueWords := sorted]> h in
    let rec := slice0 sorted targetSessionLength in
    let more :=
      if Z.of_nat (length sorted) >? targetSessionLength
      then Some (Z.of_nat (length sorted) - targetSessionLength) else None in
    Some ({| recommended := fresh_ref;
             totalDue := Some (length sorted);
             message := Ready (length rec) more |},
          <[fresh_ref := rec]> h1).

(** The sort key of the specification: level, then due date. *)
Definition sortKey (w : Word) : Z * Z :=
  (level (srsData w), nextReview (srsData w)).

Definition keyLe (a b : Word) : Prop :=
  level (srsData a) < level (srsData b)
  ∨ (level (srsData a) = level (srsData b)
     ∧ nextReview (srsData a) ≤ nextReview (srsData b)).

(** *** The rest of [SRSSystem] *)

(** [getDifficultyMultiplier]: 0.5, 1.0, 1.5, and 1.0 for any other
    rating. *)
Definition getDifficultyMultiplier (userRating : Z) : QArith_base.Q :=
  if userRating =? 1 then QArith_base.Qmake 1 2
  else if userRating =? 2 then QArith_base.Qmake 1 1
  else if userRating =? 3 then QArith_base.Qmake 3 2
  else QArith_base.Qmake 1 1.

Section Calendar.
(** The local calendar day of a date, as a day number: two dates have the
    same [toDateString()] exactly when they fall on the same day, and
    [setDate(getDate() - 1)] leads to the day before.  The clock readings
    of one call are taken as one instant [now]. *)
Variable dayOf : Z → Z.

(** The test of [calculateStreak] and [generateStats]: the word has a
    [lastReviewed] date and it falls on [day]. *)
Definition reviewedOn (day : Z) (w : Word) : bool :=
  match lastReviewed (srsData w) with
  | None => false
  | Some t => dayOf t =? day
  end.

(** The [while (streakDays < 365)] loop of [calculateStreak]; [remaining]
    is [365 - streakDays]. *)
Fixpoint streakLoop (remaining : nat) (checkDay : Z) (words : list Word) : nat :=
  match remaining with
  | O => O
  | S n =>
      if existsb (reviewedOn checkDay) words
      then S (streakLoop n (checkDay - 1) words)
      else O
  end.

(** [calculateStreak]. *)
Definition calculateStreak (now : Z) (words : list Word) : nat :=
  streakLoop 365 (dayOf now) words.

Record Distribution := {
  beginner : nat;        (* level 1-3 *)
  intermediate : nat;    (* level 4-6 *)
  advanced : nat;        (* level 7-8 *)
  mastered : nat         (* level 9-10 *)
}.

(** The result of [generateStats].  [averageLevel] and [retentionRate] are
    the quotients that the code formats with [toFixed(1)]; they are kept
    here as exact rationals. *)
Record Stats := {
  totalWords : nat;
  averageLevel : QArith_base.Q;
  distribution : Distribution;
  reviewsToday : nat;
  streakDays : nat;
  retentionRate : QArith_base.Q
}.

(** The running totals of the [forEach] of [generateStats]. *)
Record Tally := {
  totalLevel : Z;
  totalCorrect : Z;
  sumReviews : Z;
  tallied : Distribution;
  today : nat
}.

Definition categorize (lvl : Z) (d : Distribution) : Distribution :=
  if lvl <=? 3 then
    {| beginner := S (beginner d); intermediate := intermediate d;
       advanced := advanced d; mastered := mastered d |}
  else if lvl <=? 6 then
    {| beginner := beginner d; intermediate := S (intermediate d);
       advanced := advanced d; mastered := mastered d |}
  else if lvl <=? 8 then
    {| beginner := beginner d; intermediate := intermediate d;
       advanced := S (advanced d); mastered := mastered d |}
  else
    {| beginner := beginner d; intermediate := intermediate d;
       advanced := advanced d; mastered := S (mastered d) |}.

Definition tallyWord (now : Z) (t : Tally) (word : Word) : Tally :=
  let lvl := level (srsData word) in
  {| totalLevel := totalLevel t + lvl;
     totalCorrect := totalCorrect t + correctAnswers (srsData word);
     sumReviews := sumReviews t + totalReviews (srsData word);
     tallied := categorize lvl (tallied t);
     today := if reviewedOn (dayOf now) word then S (today t) else today t |}.

Definition noTally : Tally :=
  {| totalLevel := 0; totalCorrect := 0; sumReviews := 0;
     tallied := {| beginner := 0; intermediate := 0; advanced := 0;
                   mastered := 0 |};
     today := 0 |}.

(** [generateStats]. *)
Definition generateStats (now : Z) (words : list Word) : Stats :=
  let streak := calculateStreak now words in
  if bool_decide (length words = 0%nat) then
    {| totalWords := length words; averageLevel := QArith_base.Qmake 0 1;
       distribution := tallied noTally; reviewsToday := 0;
       streakDays := streak; retentionRate := QArith_base.Qmake 0 1 |}
  else
    let t := foldl (tallyWord now) noTally words in
    {| totalWords := length words;
       averageLevel :=
         QArith_base.Qdiv (QArith_base.inject_Z (totalLevel t))
                          (QArith_base.inject_Z (Z.of_nat (length words)));
       distribution := tallied t;
       reviewsToday := today t;
       streakDays := streak;
       retentionRate :=
         if sumReviews t >? 0 then
           QArith_base.Qmult
             (QArith_base.Qdiv (QArith_base.inject_Z (totalCorrect t))
                               (QArith_base.inject_Z (sumReviews t)))
             (QArith_base.inject_Z 100)
         else QArith_base.Qmake 0 1 |}.

Inductive RecommendationType := Overdue | WeakAreas | NewWords | MaintainStreak.
Inductive Priority := High | Medium | Low.

(** A recommendation; [number] is the count that its message mentions. *)
Record Recommendation := {
  rtype : RecommendationType;
  priority : Priority;
  number : nat;
  recWords : option (list Word)
}.

(** The floating-point test of the weak-areas filter,
    [retention < 70 && totalReviews >= 3], is a parameter. *)
Variable weak : Word → bool.

(** [getRecommendations]; the recommendations in the order they are
    pushed. *)
Definition getRecommendations (now : Z) (words : list Word)
    : list Recommendation :=
  let stats := generateStats now words in
  let overdue := List.filter (λ w, nextReview (srsData w) <? now) words in
  let weakWords := List.filter weak words in
  (if (0 <? length overdue)%nat then
     [{| rtype := Overdue; priority := High; number := length overdue;
         recWords := Some (slice0 overdue 10) |}]
   else [])
  ++ (if (0 <? length weakWords)%nat then
        [{| rtype := WeakAreas; priority := Medium; number := length weakWords;
            recWords := Some weakWords |}]
      else [])
  ++ (if (10 <=? reviewsToday stats)%nat && bool_decide (length overdue = 0%nat)
      then [{| rtype := NewWords; priority := Low; number := 0;
               recWords := None |}]
      else [])
  ++ (if (3 <=? streakDays stats)%nat && bool_decide (reviewsToday stats = 0%nat)
      then [{| rtype := MaintainStreak; priority := High;
               number := streakDays stats; recWords := None |}]
      else []).
End Calendar.

(** One answer of a study session, as [handleFeedback] records it. *)
Record SessionResult := {
  resultCorrect : bool;
  userRating : Z;
  responseTime : Z;      (* r.responseTime || 0 *)
  resultTimestamp : Z
}.

(** A session of the log.  The two quotients ([averageResponseTime], not a
    number for an empty session, and [sessionDuration] in seconds) are kept
    as exact rationals. *)
Record StudySession := {
  sessionDate : Z;
  wordsReviewed : nat;
  sessionCorrect : nat;
  averageResponseTime : option QArith_base.Q;
  difficult : nat;
  medium : nat;
  easy : nat;
  sessionDuration : QArith_base.Q
}.

Definition countRating (rating : Z) (results : list SessionResult) : nat :=
  length (List.filter (λ r, userRating r =? rating) results).

(** [exportSessionData]: the session, and the [studySessions] item of
    localStorage after the call. *)
Definition exportSessionData (now : Z) (sessionWords : list Word)
    (sessionResults : list SessionResult) (sessions : list StudySession)
    : StudySession * list StudySession :=
  let total := foldl (λ sum r, sum + responseTime r) 0 sessionResults in
  let session :=
    {| sessionDate := now;
       wordsReviewed := length sessionWords;
       sessionCorrect := length (List.filter resultCorrect sessionResults);
       averageResponseTime :=
         match sessionResults with
         | [] => None
         | _ => Some (QArith_base.Qdiv (QArith_base.inject_Z total)
                        (QArith_base.inject_Z
                           (Z.of_nat (length sessionResults))))
         end;
       difficult := countRating 1 sessionResults;
       medium := countRating 2 sessionResults;
       easy := countRating 3 sessionResults;
       sessionDuration :=
         match sessionResults, last sessionResults with
         | first :: _, Some final =>
             QArith_base.Qdiv
               (QArith_base.inject_Z
                  (resultTimestamp final - resultTimestamp first))
               (QArith_base.inject_Z 1000)
         | _, _ => QArith_base.Qmake 0 1
         end |} in
  let pushed := sessions ++ [session] in
  let kept :=
    if (100 <? length pushed)%nat
    then drop (length pushed - 100) pushed else pushed in
  (session, kept).

(** *** The rest of [VocabularyData] *)

(** [addWord]: [newId] is what [generateId] draws; of the word data only
    the Lithuanian text is kept in this model. *)
Definition addWord (now : Z) (newId : string) (text : jsstring)
    (vd : VocabularyData) : Word * VocabularyData :=
  let word :=
    {| id := newId; lithuanian := text;
       srsData := {| level := 1; nextReview := now; totalReviews := 0;
                     correctAnswers := 0; lastReviewed := None |} |} in
  let words' := words vd ++ [word] in
  (word, {| words := words'; stored := Some words' |}).

(** [getWordsForReview]. *)
Definition getWordsForReview (now : Z) (vd : VocabularyData) : list Word :=
  List.filter (λ w, nextReview (srsData w) <=? now) (words vd).

(** [findIndex] followed by [splice(index, 1)]. *)
Fixpoint removeFirst (p : Word → bool) (l : list Word) : list Word :=
  match l with
  | [] => []
  | w :: r => if p w then r else w :: removeFirst p r
  end.

(** [deleteWord]. *)
Definition deleteWord (wordId : string) (vd : VocabularyData)
    : bool * VocabularyData :=
  let found := λ w : Word, String.eqb (id w) wordId in
  if existsb found (words vd) then
    let words' := removeFirst found (words vd) in
    (true, {| words := words'; stored := Some words' |})
  else (false, vd).

(** [getStatistics]; [averageLevel] as the exact quotient. *)
Record Statistics := {
  statTotal : nat;
  masteredWords : nat;
  dueForReview : nat;
  statAverage : QArith_base.Q
}.

Definition getStatistics (now : Z) (vd : VocabularyData) : Statistics :=
  let total := length (words vd) in
  {| statTotal := total;
     masteredWords :=
       length (List.filter (λ w, 8 <=? level (srsData w)) (words vd));
     dueForReview := length (getWordsForReview now vd);
     statAverage :=
       if (0 <? total)%nat then
         QArith_base.Qdiv
           (QArith_base.inject_Z
              (foldl (λ sum w, sum + level (srsData w)) 0 (words vd)))
           (QArith_base.inject_Z (Z.of_nat total))
       else QArith_base.Qmake 0 1 |}.

(** What the code expects of a stored word: a level of the table, and
    counters in order. *)
Definition wellFormed (w : Word) : Prop :=
  1 ≤ level (srsData w) ≤ 10
  ∧ 0 ≤ correctAnswers (srsData w) ≤ totalReviews (srsData w).

(** The number of words a distribution accounts for. *)
Definition distTotal (d : Distribution) : nat :=
  (beginner d + intermediate d + advanced d + mastered d)%nat.

End SRS.

(** ** Effects

    Stateful code that may throw: a computation takes the state it runs in
    and gives back a value or an error together with the state it leaves. *)

Inductive Result (E A : Type) :=
  | Return (a : A)
  | Throw (e : E).
Arguments Return {E A} a.
Arguments Throw {E A} e.

Definition M (S E A : Type) : Type := S → Result E A * S.

Definition ret {S E A} (a : A) : M S E A := λ s, (Return a, s).
Definition throw {S E A} (e : E) : M S E A := λ s, (Throw e, s).
Definition bind {S E A B} (m : M S E A) (k : A → M S E B) : M S E B :=
  λ s, match m s with
       | (Return a, s') => k a s'
       | (Throw e, s') => (Throw e, s')
       end.
Definition tryCatch {S E A} (m : M S E A) (handler : E → M S E A) : M S E A :=
  λ s, match m s with
       | (Return a, s') => (Return a, s')
       | (Throw e, s') => handler e s'
       end.
Definition get {S E} : M S E S := λ s, (Return s, s).
Definition put {S E} (s : S) : M S E unit := λ _, (Return tt, s).

Notation "'let*' x ':=' m 'in' k" := (bind m (λ x, k))
  (at level 10, x name, m at level 100, k at level 200, only parsing).
Notation "'exec' m 'in' k" := (bind m (λ _, k))
  (at level 10, m at level 100, k at level 200, only parsing).

(** ** The pronunciation client: [LithuanianTTSClient] *)

Module TTS.

(** What the client does to the outside world. *)
Inductive Event :=
  | EvHead (url : jsstring)
      (* fetch(url, { method: 'HEAD', cache: 'no-cache' }) *)
  | EvGenerate (server text : jsstring) (force : bool)
      (* fetch(`${server}/tts/generate?text=..&force=..`) *)
  | EvPlay (url : jsstring)
      (* new Audio(url), load, play *)
  | EvBrowserSpeak (text : jsstring)
      (* speechSynthesis.speak(utterance), lang lt-LT, rate 0.8 *)
  | EvElapsed (ms : Z).
      (* not an action of the client: time that passes between two calls *)

Inductive HeadResponse :=
  | HeadOk            (* response.ok *)
  | HeadNotOk         (* any other status *)
  | HeadFailed.       (* fetch rejected *)

(** The body of an answer of [/tts/generate]; both servers send [audioUrl]
    whenever [success] is true. *)
Record GenBody := {
  success : bool;
  audioUrl : jsstring;
  cached : bool
}.

Inductive GenResponse :=
  | GenFailed                 (* fetch rejected *)
  | GenNotOk                  (* status outside 200..299 *)
  | GenMalformed              (* response.json() rejected *)
  | GenJson (body : GenBody).

(** The environment answers each request; an answer may depend on everything
    the client did before (servers and browser have state of their own). *)
Record Network := {
  head : list Event → jsstring → HeadResponse;
  generate : list Event → jsstring → jsstring → bool → GenResponse;
  (* [true]: the audio element fires [ended]; [false]: it fires [error] *)
  play : list Event → jsstring → bool;
  (* 'speechSynthesis' in window *)
  hasSpeechSynthesis : bool
}.

Record Client := {
  serverUrl : jsstring;
  fallbackUrl : jsstring;
  cache : gmap jsstring jsstring;   (* this.cache = new Map() *)
  usesFallback : bool
}.

(** [new LithuanianTTSClient(serverUrl, fallbackUrl)]. *)
Definition newClient (serverUrl fallbackUrl : jsstring) : Client :=
  {| serverUrl := serverUrl; fallbackUrl := fallbackUrl;
     cache := ∅; usesFallback := false |}.

(** The client after [getAudioUrl] memoised the answer of [server]:
    [this.cache.set(cacheKey, url)] and
    [this.usesFallback = (server === this.fallbackUrl)]. *)
Definition memoised (c : Client) (k url server : jsstring) : Client :=
  {| serverUrl := serverUrl c; fallbackUrl := fallbackUrl c;
     cache := <[k := url]> (cache c);
     usesFallback := bool_decide (server = fallbackUrl c) |}.

Inductive Error :=
  | AllServersUnavailable
      (* 'All TTS servers unavailable and no cached audio found' *)
  | PlaybackFailed
      (* 'Audio playback failed' *)
  | AudioUnavailable.
      (* 'Audio is not available right now. Please try again later.' *)

(** Computations of the client: they read and write the client object and
    extend the history of events. *)
Record State := {
  client : Client;
  history : list Event
}.

Abbreviation Eff := (M State Error).

Definition emit (e : Event) : Eff unit :=
  let* s := get in
  put {| client := client s; history := history s ++ [e] |}.
Definition getClient : Eff Client := let* s := get in ret (client s).
Definition getHistory : Eff (list Event) := let* s := get in ret (history s).
Definition setClient (c : Client) : Eff unit :=
  let* s := get in put {| client := c; history := history s |}.

Section Protocol.
Variable toLowerCase : jsstring → jsstring.
Variable net : Network.

(** A non-empty string is truthy. *)
Definition truthy (s : jsstring) : bool :=
  match s with [] => false | _ => true end.

(** One HEAD probe of [checkCacheDirectly]: [true] on [response.ok]; a
    rejected fetch is caught and logged. *)
Definition probe (url : jsstring) : Eff bool :=
  let* h := getHistory in
  exec emit (EvHead url) in
  ret (match head net h url with HeadOk => true | _ => false end).

(** [checkCacheDirectly]: [null] is [None]. *)
Definition checkCacheDirectly (text : jsstring) : Eff (option jsstring) :=
  let* c := getClient in
  let textKey := Client.generateTextKey toLowerCase text in
  let filename := textKey ++ units ".mp3" in
  let ttsUrl := serverUrl c ++ units "/" ++ filename in
  let* ok := probe ttsUrl in
  if ok then ret (Some ttsUrl)
  else
    let cacheUrl := fallbackUrl c ++ units "/audio_cache/" ++ filename in
    let* ok := probe cacheUrl in
    if ok then ret (Some cacheUrl) else ret None.

(** [playAudio]: resolves when playback ends, rejects on an error of the
    audio element.  (An element that fires neither event leaves the promise
    pending; the environment of this model always answers.) *)
Definition playAudio (audioUrl : jsstring) : Eff unit :=
  let* h := getHistory in
  exec emit (EvPlay audioUrl) in
  if play net h audioUrl then ret tt else throw PlaybackFailed.

(** The [for (const server of servers)] loop of [getAudioUrl]. *)
Fixpoint tryServers (text : jsstring) (forceRegenerate : bool)
    (cacheKey : jsstring) (servers : list jsstring) : Eff jsstring :=
  match servers with
  | [] => throw AllServersUnavailable
  | url :: rest =>
      let* h := getHistory in
      exec emit (EvGenerate url text forceRegenerate) in
      match generate net h url text forceRegenerate with
      | GenJson result =>
          if success result then
            let* c := getClient in
            exec setClient (memoised c cacheKey (audioUrl result) url) in
            ret (audioUrl result)
          else tryServers text forceRegenerate cacheKey rest
      | _ => tryServers text forceRegenerate cacheKey rest
      end
  end.

(** [getAudioUrl]. *)
Definition getAudioUrl (text : jsstring) (forceRegenerate : bool) : Eff jsstring :=
  let* c := getClient in
  let cacheKey := Client.generateTextKey toLowerCase text in
  match (if forceRegenerate then None else cache c !! cacheKey) with
  | Some url => ret url
  | None =>
      tryServers text forceRegenerate cacheKey [serverUrl c; fallbackUrl c]
  end.

(** [speak]: every error of the body is caught and replaced. *)
Definition speak (text : jsstring) (forceRegenerate : bool) : Eff unit :=
  tryCatch
    (let* returned :=
       (if negb forceRegenerate then
          let* cachedUrl := checkCacheDirectly text in
          match cachedUrl with
          | Some url =>
              if truthy url then (exec playAudio url in ret true)
              else ret false
          | None => ret false
          end
        else ret false) in
     if returned : bool then ret tt
     else
       let* audioUrl := getAudioUrl text forceRegenerate in
       playAudio audioUrl)
    (λ _, throw AudioUnavailable).

(** [fallbackSpeak]: the browser voice. *)
Definition fallbackSpeak (text : jsstring) : Eff unit :=
  if hasSpeechSynthesis net then emit (EvBrowserSpeak text) else ret tt.

Definition run {A} (m : Eff A) (c : Client) (h : list Event)
    : Result Error A * State :=
  m {| client := c; history := h |}.

(** The page stays open for [ms] milliseconds. *)
Definition idle (ms : Z) : Eff unit := emit (EvElapsed ms).

(** *** The tiers, as the environment answers them *)

(** The URL a synthesis answer carries, if the answer is a success. *)
Definition genUrl (r : GenResponse) : option jsstring :=
  match r with
  | GenJson body => if success body then Some (audioUrl body) else None
  | _ => None
  end.

Definition ttsUrlOf (c : Client) (text : jsstring) : jsstring :=
  serverUrl c ++ units "/"
    ++ (Client.generateTextKey toLowerCase text ++ units ".mp3").

Definition cacheUrlOf (c : Client) (text : jsstring) : jsstring :=
  fallbackUrl c ++ units "/audio_cache/"
    ++ (Client.generateTextKey toLowerCase text ++ units ".mp3").

(** The history once the two probes of a call that starts after [h] were
    answered; a forced call does not probe. *)
Definition afterProbes (c : Client) (h : list Event) (text : jsstring)
    (forceRegenerate : bool) : list Event :=
  if forceRegenerate then h
  else (h ++ [EvHead (ttsUrlOf c text)]) ++ [EvHead (cacheUrlOf c text)].

(** Every tier of a [speak] call that starts after [h] fails: unless
    forced, both existence probes and the memo miss; both synthesis
    requests are answered without a usable URL. *)
Definition everyTierFails (c : Client) (h : list Event) (text : jsstring)
    (forceRegenerate : bool) : Prop :=
  (forceRegenerate = false →
     head net h (ttsUrlOf c text) ≠ HeadOk
     ∧ head net (h ++ [EvHead (ttsUrlOf c text)]) (cacheUrlOf c text) ≠ HeadOk
     ∧ cache c !! Client.generateTextKey toLowerCase text = None)
  ∧ genUrl (generate net (afterProbes c h text forceRegenerate)
              (serverUrl c) text forceRegenerate) = None
  ∧ genUrl (generate net
              (afterProbes c h text forceRegenerate
                 ++ [EvGenerate (serverUrl c) text forceRegenerate])
              (fallbackUrl c) text forceRegenerate) = None.

(** Two steps of [speak], named for the statements below: the playback
    that ends a call (its error is the one [speak] rethrows), and the way
    through [getAudioUrl]. *)
Definition playLast (url : jsstring) (c : Client) (h : list Event)
    : Result Error unit * State :=
  (if play net h url then Return () else Throw AudioUnavailable,
   {| client := c; history := h ++ [EvPlay url] |}).

Definition viaServers (c : Client) (h : list Event) (text : jsstring)
    (forceRegenerate : bool) : Result Error unit * State :=
  match getAudioUrl text forceRegenerate {| client := c; history := h |} with
  | (Return url, s) => playLast url (client s) (history s)
  | (Throw _, s) => (Throw AudioUnavailable, s)
  end.

(** The call ended with a playback that the audio element refused. *)
Definition playbackFails (after : list Event) : Prop :=
  ∃ before url, after = before ++ [EvPlay url] ∧ play net before url = false.
End Protocol.

Definition isNetworkEvent (e : Event) : bool :=
  match e with
  | EvHead _ | EvGenerate _ _ _ => true
  | _ => false
  end.

(** *** Batch requests *)

(** An element of [audioFiles] in the answer of [/tts/batch]. *)
Record AudioFile := {
  fileText : jsstring;
  fileKey : jsstring;
  fileName : jsstring;
  fileUrl : jsstring      (* audioUrl *)
}.

Inductive BatchResponse :=
  | BatchFailed                   (* fetch rejected *)
  | BatchNotOk (status : nat)     (* status outside 200..299 *)
  | BatchMalformed                (* response.json() rejected *)
  | BatchJson (ok : bool) (error : option jsstring)
              (audioFiles : option (list AudioFile)).

Inductive BatchError :=
  | BatchFetchRejected
  | BatchStatus (status : nat)      (* `Batch TTS Error: ${status}` *)
  | BatchBodyRejected
  | BatchRefused (message : jsstring)
  | BatchNoFiles.                   (* forEach of undefined *)

Section Requests.
(** The answer to [POST url] with body [{ texts }]. *)
Variable batchAnswer : jsstring → list jsstring → BatchResponse.

(** The [forEach] that memoises the files of an answer. *)
Definition memoiseFiles (files : list AudioFile) (c : Client) : Client :=
  {| serverUrl := serverUrl c; fallbackUrl := fallbackUrl c;
     cache := foldl (λ m file, <[fileKey file := fileUrl file]> m) (cache c) files;
     usesFallback := usesFallback c |}.

(** [generateBatch]: every error is logged and thrown again. *)
Definition generateBatch (texts : list jsstring) (c : Client)
    : Result BatchError (list AudioFile) * Client :=
  match batchAnswer (serverUrl c ++ units "/tts/batch") texts with
  | BatchFailed => (Throw BatchFetchRejected, c)
  | BatchNotOk status => (Throw (BatchStatus status), c)
  | BatchMalformed => (Throw BatchBodyRejected, c)
  | BatchJson ok error audioFiles =>
      if ok then
        match audioFiles with
        | Some files => (Return files, memoiseFiles files c)
        | None => (Throw BatchNoFiles, c)
        end
      else
        (Throw (BatchRefused
                  (match error with
                   | Some (u :: m) => u :: m
                   | _ => units "Batch TTS generation failed"
                   end)), c)
  end.
End Requests.

End TTS.

(** ** The request cache of [EnhancedAudioManager] *)

Module AudioManager.
Local Open Scope Z_scope.

(** [btoa]: base64 of a string of Latin-1 units; it throws on any other
    unit ([None]). *)
Definition b64char (n : N) : N :=
  (if n <? 26 then 65 + n
   else if n <? 52 then 97 + (n - 26)
   else if n <? 62 then 48 + (n - 52)
   else if n =? 62 then 43 else 47)%N.

Fixpoint b64 (l : jsstring) : jsstring :=
  (match l with
   | a :: b :: c :: r =>
       b64char (a / 4) :: b64char (a mod 4 * 16 + b / 16)
       :: b64char (b mod 16 * 4 + c / 64) :: b64char (c mod 64) :: b64 r
   | [a; b] =>
       [b64char (a / 4); b64char (a mod 4 * 16 + b / 16);
        b64char (b mod 16 * 4); 61]
   | [a] => [b64char (a / 4); b64char (a mod 4 * 16); 61; 61]
   | [] => []
   end)%N.

Definition btoa (s : jsstring) : option jsstring :=
  if forallb (λ c, c <=? 255)%N s then Some (b64 s) else None.

(** The units removed by [String.prototype.trim]. *)
Definition isWhiteSpace (c : N) : bool :=
  (bool_decide (c ∈ [9; 10; 11; 12; 13; 32; 160; 5760; 8232; 8233; 8239;
                     8287; 12288; 65279])
   || ((8192 <=? c) && (c <=? 8202)))%N.

(** [!text || !text.trim()]. *)
Definition isBlank (text : jsstring) : bool := forallb isWhiteSpace text.

Record CacheItem := {
  itemText : jsstring;
  itemLanguage : jsstring;
  timestamp : Z;              (* Date.now() when stored *)
  data : option jsstring      (* null for local requests *)
}.

(** The manager object: the fields of [CloudTTSConfig] that [speak] reads,
    and the cache. *)
Record Manager := {
  enableCaching : bool;
  cacheExpiry : Z;
  fallbackToLocal : bool;
  cache : gmap jsstring CacheItem
}.

(** [new EnhancedAudioManager()] before any cache was loaded:
    [cacheExpiry = 24 * 60 * 60 * 1000]. *)
Definition newManager : Manager :=
  {| enableCaching := true;
     cacheExpiry := 24 * 60 * 60 * 1000;
     fallbackToLocal := true;
     cache := ∅ |}.

Inductive Event :=
  | EvProviderSpeak (text language : jsstring)
  | EvLocalSpeak (text language : jsstring).

(** A provider as [speak] sees it: whether it is available, and for each
    request whether the promise resolves and how long that takes. *)
Record Provider := {
  isAvailable : bool;
  speakOutcome : list Event → jsstring → jsstring → bool * Z
}.

(** [getCurrentProvider()] and [providers.get('local')]; either may be
    [undefined]. *)
Record Providers := {
  current : option Provider;
  localProvider : option Provider
}.

Inductive Error :=
  | InvalidCharacter.    (* thrown by btoa *)

Record State := {
  manager : Manager;
  clock : Z;                  (* what Date.now() returns *)
  history : list Event
}.

Abbreviation Eff := (M State Error).

Definition dateNow : Eff Z := let* s := get in ret (clock s).
Definition getManager : Eff Manager := let* s := get in ret (manager s).
(** The state once [this.cache] holds [c]. *)
Definition withCache (s : State) (c : gmap jsstring CacheItem) : State :=
  {| manager := {| enableCaching := enableCaching (manager s);
                   cacheExpiry := cacheExpiry (manager s);
                   fallbackToLocal := fallbackToLocal (manager s);
                   cache := c |};
     clock := clock s; history := history s |}.

Definition setCache (c : gmap jsstring CacheItem) : Eff unit :=
  let* s := get in put (withCache s c).

(** Awaiting a provider: the request is recorded and time passes. *)
Definition await (e : Event) (outcome : list Event → bool * Z) : Eff bool :=
  let* s := get in
  let r := outcome (history s) in
  exec put {| manager := manager s;
              clock := clock s + r.2;
              history := history s ++ [e] |} in
  ret r.1.

(** [getCacheKey]. *)
Definition getCacheKey (text language : jsstring) : Eff jsstring :=
  match btoa text with
  | Some b => ret (language ++ units "_" ++ take 32 b)
  | None => throw InvalidCharacter
  end.

(** [isCacheValid]. *)
Definition isCacheValid (cachedItem : CacheItem) : Eff bool :=
  let* now := dateNow in
  let* m := getManager in
  let age := now - timestamp cachedItem in
  ret (age <? cacheExpiry m).

(** [playCachedAudio]: nothing is played, [true] is returned. *)
Definition playCachedAudio (audioData : option jsstring) : Eff bool :=
  ret true.

(** [cleanupCache]. *)
Definition cleanupCache : Eff unit :=
  let* now := dateNow in
  let* m := getManager in
  setCache (filter (λ kv, ¬ (now - timestamp kv.2 > cacheExpiry m)) (cache m)).

(** [cacheAudioRequest]. *)
Definition cacheAudioRequest (key text language : jsstring) : Eff unit :=
  let* now := dateNow in
  let* m := getManager in
  exec setCache (<[key := {| itemText := text; itemLanguage := language;
                             timestamp := now; data := None |}]> (cache m)) in
  cleanupCache.

Section Speak.
Variable providers : Providers.

(** The cache tier of [speak]: [Some r] when [speak] returns [r] from the
    cache, [None] when it goes on to the providers. *)
Definition cacheTier (cacheKey : jsstring) : Eff (option bool) :=
  let* m := getManager in
  if enableCaching m then
    match cache m !! cacheKey with
    | Some cachedAudio =>
        let* valid := isCacheValid cachedAudio in
        if valid then
          let* r := playCachedAudio (data cachedAudio) in ret (Some r)
        else
          exec setCache (delete cacheKey (cache m)) in ret None
    | None => ret None
    end
  else ret None.

(** The current provider; a rejected request is caught and logged. *)
Definition providerTier (cacheKey text language : jsstring) : Eff bool :=
  match current providers with
  | Some p =>
      if isAvailable p then
        let* ok := await (EvProviderSpeak text language)
                         (λ h, speakOutcome p h text language) in
        if ok then
          let* m := getManager in
          exec (if enableCaching m
                then cacheAudioRequest cacheKey text language
                else ret tt) in
          ret true
        else ret false
      else ret false
  | None => ret false
  end.

(** The local voice. *)
Definition localTier (text language : jsstring) : Eff bool :=
  let* m := getManager in
  if fallbackToLocal m then
    match localProvider providers with
    | Some p =>
        if isAvailable p then
          await (EvLocalSpeak text language)
                (λ h, speakOutcome p h text language)
        else ret false
    | None => ret false
    end
  else ret false.

(** [EnhancedAudioManager.speak]. *)
Definition speak (text language : jsstring) : Eff bool :=
  if isBlank text then ret false
  else
    let* cacheKey := getCacheKey text language in
    let* fromCache := cacheTier cacheKey in
    match fromCache with
    | Some r => ret r
    | None =>
        let* spoken := providerTier cacheKey text language in
        if spoken then ret true else localTier text language
    end.
End Speak.

End AudioManager.

(** ** Batch generation on the TTS server: [get_sound.js] *)

Module Batch.

(** An entry of [cache_index.json]; [generatedAt], [fileSize], [voice] and
    [speakingRate] are recorded by the code and never read back. *)
Record CacheEntry := {
  originalText : jsstring;
  filename : jsstring
}.

(** The cache directory: the parsed [cache_index.json] (empty when the file
    is absent or unreadable) and the names of the audio files. *)
Record Disk := {
  index : gmap jsstring CacheEntry;
  files : gset jsstring
}.

Inductive Event :=
  | EvSynthesize (text : jsstring).    (* client.synthesizeSpeech(request) *)

Inductive Error :=
  | SynthesisFailed.

Record State := {
  disk : Disk;
  history : list Event
}.

Abbreviation Eff := (M State Error).

Record BatchResult := {
  total : nat;
  cached : nat;
  generated : nat
}.

(** [cache[textKey]] used as a condition.  The index is a plain object, so
    the one key of a..z that [Object.prototype] defines is found in every
    index. *)
Definition cacheHas (cache : gmap jsstring CacheEntry) (textKey : jsstring)
    : bool :=
  bool_decide (is_Some (cache !! textKey))
  || bool_decide (textKey = units "constructor").

Definition defaultText : jsstring := units "Labas rytas! Kaip sekasi?".

Section Generation.
Variable toLowerCase : jsstring → jsstring.
(** Whether the synthesis request resolves, given what was requested
    before. *)
Variable synthesize : list Event → jsstring → bool.

Definition loadAudioCache : Eff (gmap jsstring CacheEntry) :=
  let* s := get in ret (index (disk s)).

Definition existsSync (name : jsstring) : Eff bool :=
  let* s := get in ret (bool_decide (name ∈ files (disk s))).

Definition writeFile (name : jsstring) : Eff unit :=
  let* s := get in
  put {| disk := {| index := index (disk s);
                    files := {[name]} ∪ files (disk s) |};
         history := history s |}.

Definition saveAudioCache (cache : gmap jsstring CacheEntry) : Eff unit :=
  let* s := get in
  put {| disk := {| index := cache; files := files (disk s) |};
         history := history s |}.

Definition synthesizeSpeech (text : jsstring) : Eff unit :=
  let* s := get in
  exec put {| disk := disk s; history := history s ++ [EvSynthesize text] |} in
  if synthesize (history s) text then ret tt else throw SynthesisFailed.

(** [quickStart(inputText, { cacheDir, forceRegenerate })]; the result
    stands for the path of the file inside the cache directory. *)
Definition quickStart (inputText : jsstring) (forceRegenerate : bool)
    : Eff jsstring :=
  let text := match inputText with [] => defaultText | _ => inputText end in
  let textKey := GetSound.generateTextKey toLowerCase text in
  let filename := textKey ++ units ".mp3" in
  let* cache := loadAudioCache in
  let* present := existsSync filename in
  if negb forceRegenerate && cacheHas cache textKey && present then
    ret filename
  else
    exec synthesizeSpeech text in
    exec writeFile filename in
    exec saveAudioCache
           (<[textKey := {| originalText := text; filename := filename |}]>
              cache) in
    ret filename.

(** The generation loop: a failure is logged and the loop goes on. *)
Fixpoint generateAll (newItems : list jsstring) : Eff unit :=
  match newItems with
  | [] => ret tt
  | text :: rest =>
      exec tryCatch (exec quickStart text false in ret tt) (λ _, ret tt) in
      generateAll rest
  end.

(** The test of the partition loop. *)
Definition isCached (d : Disk) (text : jsstring) : bool :=
  let textKey := GetSound.generateTextKey toLowerCase text in
  cacheHas (index d) textKey
  && bool_decide (textKey ++ units ".mp3" ∈ files d).

(** [generateVocabularyAudio(words, { cacheDir })]. *)
Definition generateVocabularyAudio (words : list jsstring) : Eff BatchResult :=
  let* s := get in
  let cachedItems := List.filter (isCached (disk s)) words in
  let newItems := List.filter (λ text, negb (isCached (disk s) text)) words in
  exec generateAll newItems in
  ret {| total := length words;
         cached := length cachedItems;
         generated := length newItems |}.
End Generation.

Definition emptyDisk : Disk := {| index := ∅; files := ∅ |}.

End Batch.

(** ** The TTS server: the handlers of its routes *)

Module Server.

Record GenerateBody := {
  bodyText : jsstring;
  bodyKey : jsstring;
  bodyFilename : jsstring;
  bodyAudioUrl : jsstring;
  bodyCached : bool
}.

Record BatchBody := {
  bodyResult : Batch.BatchResult;
  bodyAudioFiles : list TTS.AudioFile
}.

Inductive Response (B : Type) :=
  | Ok (body : B)              (* res.json({ success: true, ... }) *)
  | BadRequest                 (* res.status(400) *)
  | ServerError.               (* res.status(500), success: false *)
Arguments Ok {B} body.
Arguments BadRequest {B}.
Arguments ServerError {B}.

Section Handlers.
Variable toLowerCase : jsstring → jsstring.
Variable synthesize : list Batch.Event → jsstring → bool.
(** [process.env.PORT || 3001], in decimal. *)
Variable port : jsstring.

Definition urlOf (filename : jsstring) : jsstring :=
  units "http://localhost:" ++ port ++ units "/" ++ filename.

(** [GET /tts/generate]; [text] and [force] are the query parameters. *)
Definition ttsGenerate (text force : option jsstring)
    : Batch.Eff (Response GenerateBody) :=
  match text with
  | None | Some [] => ret BadRequest
  | Some text =>
      tryCatch
        (let textKey := GetSound.generateTextKey toLowerCase text in
         let filename := textKey ++ units ".mp3" in
         let forced := bool_decide (force = Some (units "true")) in
         let* present := Batch.existsSync filename in
         if negb forced && present then
           ret (Ok {| bodyText := text; bodyKey := textKey;
                      bodyFilename := filename;
                      bodyAudioUrl := urlOf filename;
                      bodyCached := true |})
         else
           let* audioPath := Batch.quickStart toLowerCase synthesize text forced in
           let* still := Batch.existsSync audioPath in
           ret (Ok {| bodyText := text; bodyKey := textKey;
                      bodyFilename := filename;
                      bodyAudioUrl := urlOf filename;
                      bodyCached := negb forced && still |}))
        (λ _, ret ServerError)
  end.

Definition audioFileOf (text : jsstring) : TTS.AudioFile :=
  let textKey := GetSound.generateTextKey toLowerCase text in
  {| TTS.fileText := text; TTS.fileKey := textKey;
     TTS.fileName := textKey ++ units ".mp3";
     TTS.fileUrl := urlOf (textKey ++ units ".mp3") |}.

(** [POST /tts/batch] with body [{ texts }] (no [options]); [None] is a
    body without a [texts] array. *)
Definition ttsBatch (texts : option (list jsstring))
    : Batch.Eff (Response BatchBody) :=
  match texts with
  | None => ret BadRequest
  | Some texts =>
      tryCatch
        (let* result :=
           Batch.generateVocabularyAudio toLowerCase synthesize texts in
         ret (Ok {| bodyResult := result;
                    bodyAudioFiles := audioFileOf <$> texts |}))
        (λ _, ret ServerError)
  end.

(** What [fetch] makes of an answer of [ttsBatch]. *)
Definition batchAnswerOf (r : Response BatchBody) : TTS.BatchResponse :=
  match r with
  | Ok body => TTS.BatchJson true None (Some (bodyAudioFiles body))
  | BadRequest => TTS.BatchNotOk 400
  | ServerError => TTS.BatchNotOk 500
  end.
End Handlers.

End Server.

(** ** Sample inputs *)

(** The Lithuanian word for oak, with its capital A-ogonek (U+0104) and
    z-caron (U+017E). *)
Definition azuolas : jsstring := 260%N :: 382%N :: units "uolas".

(** A word at level 4, known under the id "_w1". *)
Definition wordAtLevel4 : SRS.Word :=
  {| SRS.id := "_w1"; SRS.lithuanian := units "labas";
     SRS.srsData := {| SRS.level := 4; SRS.nextReview := 0;
                       SRS.totalReviews := 5; SRS.correctAnswers := 4;
                       SRS.lastReviewed := None |} |}.

(** Calendar days of 24 hours (a zone without clock changes). *)
Definition plainDays (t d : Z) : Z := (t + d * 86400000)%Z.

(** Four due words; the first and the third have the same level and the
    same due date. *)
Definition dueWord (name : string) (lvl due : Z) : SRS.Word :=
  {| SRS.id := name; SRS.lithuanian := units name;
     SRS.srsData := {| SRS.level := lvl; SRS.nextReview := due;
                       SRS.totalReviews := 0; SRS.correctAnswers := 0;
                       SRS.lastReviewed := None |} |}.

Definition sampleDue : list SRS.Word :=
  [dueWord "_a" 2 50; dueWord "_b" 1 70; dueWord "_c" 2 50; dueWord "_d" 1 10].

Definition sampleHeap : gmap nat (list SRS.Word) := {[ 0%nat := sampleDue ]}.

(** A client on the default ports, and two environments.  In the first no
    server answers (a URL, once known, plays).  In the second both servers
    have the file and synthesis works; whether the audio element plays it
    is the argument. *)
Definition localClient : TTS.Client :=
  TTS.newClient (units "http://localhost:3001") (units "http://localhost:8080").

Definition labasUrl : jsstring := units "http://localhost:3001/labas.mp3".

Definition deadNetwork : TTS.Network :=
  {| TTS.head := λ _ _, TTS.HeadFailed;
     TTS.generate := λ _ _ _ _, TTS.GenFailed;
     TTS.play := λ _ _, true;
     TTS.hasSpeechSynthesis := true |}.

Definition servingNetwork (plays : bool) : TTS.Network :=
  {| TTS.head := λ _ _, TTS.HeadOk;
     TTS.generate := λ _ _ _ _,
       TTS.GenJson {| TTS.success := true; TTS.audioUrl := labasUrl;
                      TTS.cached := false |};
     TTS.play := λ _ _, plays;
     TTS.hasSpeechSynthesis := true |}.

(** The client after it memoised the URL of "labas". *)
Definition memoClient : TTS.Client :=
  {| TTS.serverUrl := units "http://localhost:3001";
     TTS.fallbackUrl := units "http://localhost:8080";
     TTS.cache := {[ units "labas" := labasUrl ]};
     TTS.usesFallback := false |}.

(** An audio manager that spoke "labas" at time 0 and is asked again 25
    hours later; its providers are not configured. *)
Definition labasItem : AudioManager.CacheItem :=
  {| AudioManager.itemText := units "labas";
     AudioManager.itemLanguage := units "lithuanian";
     AudioManager.timestamp := 0;
     AudioManager.data := None |}.

Definition nextDayManager : AudioManager.State :=
  {| AudioManager.manager :=
       {| AudioManager.enableCaching := true;
          AudioManager.cacheExpiry := 24 * 60 * 60 * 1000;
          AudioManager.fallbackToLocal := true;
          AudioManager.cache := {[ units "lithuanian_bGFiYXM=" := labasItem ]} |};
     AudioManager.clock := 25 * 60 * 60 * 1000;
     AudioManager.history := [] |}.

Definition noProviders : AudioManager.Providers :=
  {| AudioManager.current := None; AudioManager.localProvider := None |}.

(** A cache directory that holds the audio of "labas". *)
Definition labasDisk : Batch.Disk :=
  {| Batch.index :=
       {[ units "labas" := {| Batch.originalText := units "labas";
                              Batch.filename := units "labas.mp3" |} ]};
     Batch.files := {[ units "labas.mp3" ]} |}.

(** A synthesis backend that answers every request, and a fresh cache
    directory. *)
Definition alwaysSynthesize : list Batch.Event → jsstring → bool := λ _ _, true.

Definition freshServer : Batch.State :=
  {| Batch.disk := Batch.emptyDisk; Batch.history := [] |}.

(** Days of 24 hours counted from the epoch (local time UTC). *)
Definition utcDay (t : Z) : Z := (t / 86400000)%Z.

(** A freshly made audio manager at time 0, and a current provider that
    speaks every text in 1.2 seconds. *)
Definition freshManager : AudioManager.State :=
  {| AudioManager.manager := AudioManager.newManager;
     AudioManager.clock := 0;
     AudioManager.history := [] |}.

Definition promptProvider : AudioManager.Provider :=
  {| AudioManager.isAvailable := true;
     AudioManager.speakOutcome := λ _ _ _, (true, 1200%Z) |}.

Definition cloudOnly : AudioManager.Providers :=
  {| AudioManager.current := Some promptProvider;
     AudioManager.localProvider := None |}.

(** * Properties *)

(** ** Key derivation *)

Lemma stripNonLower_lower s : Forall isLowerAscii (stripNonLower s).
Proof.
  unfold stripNonLower. apply Forall_forall. intros x Hx.
  by apply list_elem_of_filter in Hx as [Hx _].
Qed.

Lemma substring0_length n s : length (substring0 n s) ≤ n.
Proof. unfold substring0. rewrite length_take. lia. Qed.

Lemma substring0_Forall (P : N → Prop) n s :
  Forall P s → Forall P (substring0 n s).
Proof. apply Forall_take. Qed.

Example key_labas_case :
  Client.generateTextKey toLowerCaseLatin (units "Labas")
  = Client.generateTextKey toLowerCaseLatin (units "LABAS").
Proof. reflexivity. Qed.

Example key_labas_rytas :
  Client.generateTextKey toLowerCaseLatin (units "Labas rytas!")
  = units "labasrytas"
  ∧ Client.generateTextKey toLowerCaseLatin (units "labas rytas")
    = units "labasrytas".
Proof. split; reflexivity. Qed.

(** C4. The browser client, the main server and [get_sound.js] derive the
    same key from every text: the three copies of [generateTextKey] are
    extensionally equal (for one and the same built-in lowercasing). *)
Theorem generateTextKey_three_copies_agree
    (toLowerCase : jsstring → jsstring) (text : jsstring) :
  Client.generateTextKey toLowerCase text
  = MainServer.generateTextKey toLowerCase text
  ∧ MainServer.generateTextKey toLowerCase text
    = GetSound.generateTextKey toLowerCase text.
Proof. split; reflexivity. Qed.

(** C5. [generateTextKey] is a total function of its text; whatever the
    lowercasing does, the key has at most 50 units and each of them is one
    of a..z.  The key of the word for oak is "azuolas": no diacritic, space
    or punctuation is left. *)
Theorem generateTextKey_total_lowercase_bounded :
  (∀ (toLowerCase : jsstring → jsstring) (text : jsstring),
     ∃ key, Client.generateTextKey toLowerCase text = key
            ∧ length key ≤ 50 ∧ Forall isLowerAscii key)
  ∧ Client.generateTextKey toLowerCaseLatin azuolas = units "azuolas".
Proof.
  split; [|reflexivity].
  intros lc text. eexists. split; [reflexivity|]. split.
  - apply substring0_length.
  - apply substring0_Forall, stripNonLower_lower.
Qed.

(** ** Promotion and demotion *)

Section SRSFacts.
Import SRS.
Local Open Scope Z_scope.
Variable now : Z.
Variable addDays : Z → Z → Z.

Lemma calculateNextReview_incorrect L m :
  newLevel (calculateNextReview now addDays L false m) = Z.max (L - 2) 1.
Proof. simpl. lia. Qed.

Lemma calculateNextReview_correct L m :
  newLevel (calculateNextReview now addDays L true m) = Z.min (L + 1) 10.
Proof. reflexivity. Qed.

Lemma reviewed_incorrect_level w :
  level (srsData (reviewed now addDays false w))
  = Z.max (level (srsData w) - 1) 1.
Proof. reflexivity. Qed.

Lemma find_none_iff (p : Word → bool) l :
  List.find p l = None ↔ ∀ w, w ∈ l → p w = false.
Proof.
  induction l as [|x l IH]; simpl.
  - split; [|done]. intros _ w Hw. by apply elem_of_nil in Hw.
  - destruct (p x) eqn:Hx.
    + split; [done|]. intros H. specialize (H x (list_elem_of_here _ _)).
      congruence.
    + rewrite IH. split.
      * intros H w Hw. apply elem_of_cons in Hw as [->|Hw]; auto.
      * intros H w Hw. apply H. by apply list_elem_of_further.
Qed.
End SRSFacts.

(** C1. After a wrong answer at level 4, [SRSSystem.calculateNextReview]
    gives level 2 = max(4-2,1), while [VocabularyData.updateWordSRS] leaves
    the word at level 3 = max(4-1,1): the second path demotes by one tier,
    not by two. *)
Theorem incorrect_answer_at_level_4 :
  SRS.newLevel (SRS.calculateNextReview 0 plainDays 4 false (QArith_base.Qmake 1 1))
  = Z.max (4 - 2) 1
  ∧ (SRS.level ∘ SRS.srsData) <$>
      SRS.words (SRS.updateWordSRS 0 plainDays "_w1" false
                   {| SRS.words := [wordAtLevel4]; SRS.stored := None |}).2
    = [3%Z]
  ∧ 3%Z ≠ Z.max (4 - 2) 1.
Proof. split; [reflexivity|]. split; [reflexivity|]. vm_compute. discriminate. Qed.

(** C9. When no stored word has the id, [updateWordSRS] returns [false] and
    the state is the one before the call: the words array (every counter,
    level and date in it) and the saved copy in localStorage. *)
Theorem updateWordSRS_unknown_id_changes_nothing
    (now : Z) (addDays : Z → Z → Z) (wordId : string) (correct : bool)
    (vd : SRS.VocabularyData) :
  (∀ w, w ∈ SRS.words vd → SRS.id w ≠ wordId) →
  SRS.updateWordSRS now addDays wordId correct vd = (false, vd).
Proof.
  intros Hno. unfold SRS.updateWordSRS.
  assert (List.find (λ w, String.eqb (SRS.id w) wordId) (SRS.words vd) = None)
    as ->; [|done].
  apply find_none_iff. intros w Hw. apply String.eqb_neq. by apply Hno.
Qed.

Lemma updateWordSRS_unknown_id_witness :
  SRS.updateWordSRS 0 plainDays "_zz" true
    {| SRS.words := [wordAtLevel4]; SRS.stored := None |}
  = (false, {| SRS.words := [wordAtLevel4]; SRS.stored := None |}).
Proof.
  apply updateWordSRS_unknown_id_changes_nothing.
  intros w Hw. apply list_elem_of_singleton in Hw as ->. simpl. discriminate.
Defined.

(** ** Sorting a session *)

Section SortFacts.
Import SRS.
Local Open Scope Z_scope.

Lemma compareWords_le a b : compareWords a b ≤ 0 ↔ keyLe a b.
Proof.
  unfold compareWords, keyLe.
  destruct (Z.eqb_spec (level (srsData a)) (level (srsData b))); simpl; lia.
Qed.

Lemma compareWords_gt a b : compareWords a b > 0 → sortKey a ≠ sortKey b.
Proof.
  unfold compareWords, sortKey.
  destruct (Z.eqb_spec (level (srsData a)) (level (srsData b)));
    simpl; intros H [= H1 H2]; lia.
Qed.

Lemma keyLe_trans a b c : keyLe a b → keyLe b c → keyLe a c.
Proof. unfold keyLe. lia. Qed.

Lemma keyLe_total a b : keyLe a b ∨ keyLe b a.
Proof. unfold keyLe. lia. Qed.

Lemma insertSorted_Permutation {A} (cmp : A → A → Z) x l :
  insertSorted cmp x l ≡ₚ x :: l.
Proof.
  induction l as [|y l IH]; simpl; [done|].
  destruct (cmp x y <=? 0); [done|].
  rewrite IH. apply Permutation_swap.
Qed.

Lemma arraySort_Permutation {A} (cmp : A → A → Z) l : arraySort cmp l ≡ₚ l.
Proof.
  induction l as [|x l IH]; simpl; [done|].
  rewrite insertSorted_Permutation. by rewrite IH.
Qed.

Lemma arraySort_length {A} (cmp : A → A → Z) l :
  length (arraySort cmp l) = length l.
Proof. apply Permutation_length, arraySort_Permutation. Qed.

Lemma insertSorted_sorted x l :
  StronglySorted keyLe l → StronglySorted keyLe (insertSorted compareWords x l).
Proof.
  induction 1 as [|y l Hl IH Hy]; simpl.
  - repeat constructor.
  - destruct (Z.leb_spec (compareWords x y) 0) as [Hc|Hc].
    + apply compareWords_le in Hc.
      constructor; [by constructor|].
      constructor; [done|].
      eapply Forall_impl; [exact Hy|]. intros z Hz. by eapply keyLe_trans.
    + constructor; [done|].
      rewrite insertSorted_Permutation. constructor; [|done].
      destruct (keyLe_total y x) as [|Hxy]; [done|].
      apply compareWords_le in Hxy. lia.
Qed.

Lemma arraySort_sorted l : StronglySorted keyLe (arraySort compareWords l).
Proof.
  induction l as [|x l IH]; simpl; [constructor|].
  by apply insertSorted_sorted.
Qed.

(** Stability: the words of one key come out in the order they went in. *)
Lemma insertSorted_filter_key k x l :
  filter (λ w, sortKey w = k) (insertSorted compareWords x l)
  = filter (λ w, sortKey w = k) (x :: l).
Proof.
  induction l as [|y l IH]; simpl; [done|].
  destruct (Z.leb_spec (compareWords x y) 0) as [Hc|Hc]; [done|].
  assert (sortKey x ≠ sortKey y) as Hne by (apply compareWords_gt; lia).
  rewrite (filter_cons _ y), IH, !filter_cons.
  repeat case_decide; congruence.
Qed.

Lemma arraySort_stable k l :
  filter (λ w, sortKey w = k) (arraySort compareWords l)
  = filter (λ w, sortKey w = k) l.
Proof.
  induction l as [|x l IH]; simpl; [done|].
  rewrite insertSorted_filter_key, !filter_cons, IH. done.
Qed.

Lemma slice0_prefix {A} (l : list A) n : slice0 l n `prefix_of` l.
Proof. unfold slice0. apply prefix_take. Qed.

Lemma slice0_length {A} (l : list A) n :
  0 ≤ n → Z.of_nat (length (slice0 l n)) ≤ n.
Proof.
  intros Hn. unfold slice0. rewrite length_take.
  destruct (Z.ltb_spec n 0); lia.
Qed.

Lemma StronglySorted_prefix {A} (R : relation A) l1 l2 :
  l1 `prefix_of` l2 → StronglySorted R l2 → StronglySorted R l1.
Proof. intros [k ->] H. by apply StronglySorted_app_1_l in H. Qed.

Lemma filter_prefix {A} (P : A → Prop) `{∀ x, Decision (P x)} l1 l2 :
  l1 `prefix_of` l2 → filter P l1 `prefix_of` filter P l2.
Proof. intros [k ->]. rewrite filter_app. by eexists. Qed.

Lemma fresh_ref_ne (h : heap) r arr :
  h !! r = Some arr → fresh (dom h) ≠ r.
Proof.
  intros Hr Heq. apply (is_fresh (dom h)). rewrite Heq.
  apply elem_of_dom. eauto.
Qed.

(** What a call does to the store, whatever the array holds. *)
Lemma suggestStudySession_run dueWords n (h : heap) arr :
  h !! dueWords = Some arr →
  ∃ s h',
    suggestStudySession dueWords n h = Some (s, h')
    ∧ recommended s ≠ dueWords
    ∧ h' !! dueWords = Some (arraySort compareWords arr)
    ∧ h' !! recommended s = Some (slice0 (arraySort compareWords arr) n).
Proof.
  intros Hr. unfold suggestStudySession. rewrite Hr. simpl.
  pose proof (fresh_ref_ne h dueWords arr Hr) as Hne.
  case_bool_decide as Hlen.
  - destruct arr; [|done]. eexists _, _. split; [done|]. simpl.
    split; [done|]. split.
    + by rewrite lookup_insert_ne.
    + rewrite lookup_insert_eq. by destruct n.
  - eexists _, _. split; [done|]. simpl. split; [done|]. split.
    + rewrite lookup_insert_ne by done. by rewrite lookup_insert_eq.
    + by rewrite lookup_insert_eq.
Qed.
End SortFacts.

Example suggestStudySession_sample :
  (λ r, (r.2 !! 0%nat, r.2 !! SRS.recommended r.1))
    <$> SRS.suggestStudySession 0 3 sampleHeap
  = Some (Some [dueWord "_d" 1 10; dueWord "_b" 1 70;
                dueWord "_a" 2 50; dueWord "_c" 2 50],
          Some [dueWord "_d" 1 10; dueWord "_b" 1 70; dueWord "_a" 2 50]).
Proof. vm_compute. reflexivity. Qed.

(** C6. For every array of due words and every target size (a size: not
    negative), the array that [suggestStudySession] returns as [recommended]
    is in non-decreasing order of (level, nextReview), has at most
    [targetSessionLength] elements, and keeps words of equal level and due
    date in the order of the input: for each key, the words of that key in
    the result are the first ones of that key in the input, in input
    order. *)
Theorem suggestStudySession_sorted_bounded_stable
    (dueWords : nat) (targetSessionLength : Z) (h : gmap nat (list SRS.Word))
    (arr : list SRS.Word) :
  h !! dueWords = Some arr →
  (0 ≤ targetSessionLength)%Z →
  ∃ s h' rec,
    SRS.suggestStudySession dueWords targetSessionLength h = Some (s, h')
    ∧ h' !! SRS.recommended s = Some rec
    ∧ StronglySorted SRS.keyLe rec
    ∧ (Z.of_nat (length rec) ≤ targetSessionLength)%Z
    ∧ ∀ k, filter (λ w, SRS.sortKey w = k) rec
           `prefix_of` filter (λ w, SRS.sortKey w = k) arr.
Proof.
  intros Hr Hn.
  destruct (suggestStudySession_run dueWords targetSessionLength h arr Hr)
    as (s & h' & Hrun & _ & _ & Hrec).
  exists s, h', (SRS.slice0 (SRS.arraySort SRS.compareWords arr) targetSessionLength).
  split; [done|]. split; [done|]. split; [|split].
  - eapply StronglySorted_prefix; [apply slice0_prefix|apply arraySort_sorted].
  - by apply slice0_length.
  - intros k. rewrite <- (arraySort_stable k arr).
    apply filter_prefix, slice0_prefix.
Qed.

Lemma suggestStudySession_sorted_bounded_stable_witness :
  ∃ s h' rec,
    SRS.suggestStudySession 0 3 sampleHeap = Some (s, h')
    ∧ h' !! SRS.recommended s = Some rec
    ∧ StronglySorted SRS.keyLe rec
    ∧ (Z.of_nat (length rec) ≤ 3)%Z
    ∧ ∀ k, filter (λ w, SRS.sortKey w = k) rec
           `prefix_of` filter (λ w, SRS.sortKey w = k) sampleDue.
Proof.
  apply (suggestStudySession_sorted_bounded_stable 0 3 sampleHeap sampleDue);
    [reflexivity | lia].
Defined.

(** C10. [suggestStudySession] sorts the array it is given: after the call
    the caller's array holds a permutation of its former elements in (level,
    nextReview) order, so an array that was not in that order has changed;
    the returned [recommended] array is another array, holding the first
    elements of the sorted one. *)
Theorem suggestStudySession_sorts_argument_in_place
    (dueWords : nat) (targetSessionLength : Z) (h : gmap nat (list SRS.Word))
    (arr : list SRS.Word) :
  h !! dueWords = Some arr →
  ∃ s h' sorted,
    SRS.suggestStudySession dueWords targetSessionLength h = Some (s, h')
    ∧ h' !! dueWords = Some sorted
    ∧ sorted ≡ₚ arr
    ∧ StronglySorted SRS.keyLe sorted
    ∧ (¬ StronglySorted SRS.keyLe arr → sorted ≠ arr)
    ∧ SRS.recommended s ≠ dueWords
    ∧ h' !! SRS.recommended s = Some (SRS.slice0 sorted targetSessionLength).
Proof.
  intros Hr.
  destruct (suggestStudySession_run dueWords targetSessionLength h arr Hr)
    as (s & h' & Hrun & Hne & Hdue & Hrec).
  exists s, h', (SRS.arraySort SRS.compareWords arr).
  repeat split; try done.
  - apply arraySort_Permutation.
  - apply arraySort_sorted.
  - intros Hns Heq. apply Hns. rewrite <- Heq. apply arraySort_sorted.
Qed.

Lemma suggestStudySession_sorts_argument_in_place_witness :
  ¬ StronglySorted SRS.keyLe sampleDue
  ∧ ∃ s h' sorted,
      SRS.suggestStudySession 0 3 sampleHeap = Some (s, h')
      ∧ h' !! 0%nat = Some sorted
      ∧ sorted ≡ₚ sampleDue
      ∧ StronglySorted SRS.keyLe sorted
      ∧ (¬ StronglySorted SRS.keyLe sampleDue → sorted ≠ sampleDue)
      ∧ SRS.recommended s ≠ 0%nat
      ∧ h' !! SRS.recommended s = Some (SRS.slice0 sorted 3).
Proof.
  split.
  - intros H. apply StronglySorted_inv in H as [_ H].
    apply Forall_inv in H. unfold SRS.keyLe in H. simpl in H. lia.
  - apply (suggestStudySession_sorts_argument_in_place 0 3 sampleHeap sampleDue).
    reflexivity.
Defined.

(** ** The resolution protocol *)

Section ProtocolFacts.
Import TTS.
Variable toLowerCase : jsstring → jsstring.
Variable net : Network.

Abbreviation key text := (Client.generateTextKey toLowerCase text).
Abbreviation tts c text := (ttsUrlOf toLowerCase c text).
Abbreviation cu c text := (cacheUrlOf toLowerCase c text).
Abbreviation st c h := {| client := c; history := h |}.

Lemma truthy_ttsUrl c text : truthy (tts c text) = true.
Proof. unfold ttsUrlOf. by destruct (serverUrl c). Qed.

Lemma truthy_cacheUrl c text : truthy (cu c text) = true.
Proof. unfold cacheUrlOf. by destruct (fallbackUrl c). Qed.

Lemma probe_run url c h :
  probe net url (st c h)
  = (Return (match head net h url with HeadOk => true | _ => false end),
     st c (h ++ [EvHead url])).
Proof. reflexivity. Qed.

Lemma playAudio_run url c h :
  playAudio net url (st c h)
  = (if play net h url then Return () else Throw PlaybackFailed,
     st c (h ++ [EvPlay url])).
Proof. cbv [playAudio bind getHistory get ret emit put throw history client]. by destruct (play net h url). Qed.

Lemma checkCacheDirectly_run c h text :
  checkCacheDirectly toLowerCase net text (st c h)
  = match head net h (tts c text) with
    | HeadOk => (Return (Some (tts c text)), st c (h ++ [EvHead (tts c text)]))
    | _ =>
        match head net (h ++ [EvHead (tts c text)]) (cu c text) with
        | HeadOk =>
            (Return (Some (cu c text)),
             st c ((h ++ [EvHead (tts c text)]) ++ [EvHead (cu c text)]))
        | _ =>
            (Return None,
             st c ((h ++ [EvHead (tts c text)]) ++ [EvHead (cu c text)]))
        end
    end.
Proof.
  cbv [checkCacheDirectly bind getClient get ret client].
  change (serverUrl c ++ units "/" ++ key text ++ units ".mp3") with (tts c text).
  change (fallbackUrl c ++ units "/audio_cache/" ++ key text ++ units ".mp3")
    with (cu c text).
  rewrite probe_run.
  destruct (head net h (tts c text)); try reflexivity;
    rewrite probe_run;
    by destruct (head net (h ++ [EvHead (tts c text)]) (cu c text)).
Qed.

Lemma getAudioUrl_run c h text force :
  getAudioUrl toLowerCase net text force (st c h)
  = match (if force then None else cache c !! key text) with
    | Some url => (Return url, st c h)
    | None =>
        let e1 := EvGenerate (serverUrl c) text force in
        let e2 := EvGenerate (fallbackUrl c) text force in
        match genUrl (generate net h (serverUrl c) text force) with
        | Some url =>
            (Return url, st (memoised c (key text) url (serverUrl c)) (h ++ [e1]))
        | None =>
            match genUrl (generate net (h ++ [e1]) (fallbackUrl c) text force) with
            | Some url =>
                (Return url,
                 st (memoised c (key text) url (fallbackUrl c))
                    ((h ++ [e1]) ++ [e2]))
            | None => (Throw AllServersUnavailable, st c ((h ++ [e1]) ++ [e2]))
            end
        end
    end.
Proof.
  cbv [getAudioUrl bind getClient get ret client].
  destruct (if force then None else cache c !! key text); [done|].
  cbv [tryServers bind getHistory getClient setClient emit get put ret throw
       history client genUrl memoised].
  destruct (generate net h (serverUrl c) text force) as [| | |b1];
    try destruct (success b1); try reflexivity;
    destruct (generate net (h ++ [EvGenerate (serverUrl c) text force])
                (fallbackUrl c) text force) as [| | |b2];
    try destruct (success b2); reflexivity.
Qed.

(** [speak] as one case analysis. *)
Lemma speak_run c h text force :
  speak toLowerCase net text force (st c h)
  = if force then viaServers toLowerCase net c h text force
    else
      match head net h (tts c text) with
      | HeadOk => playLast net (tts c text) c (h ++ [EvHead (tts c text)])
      | _ =>
          match head net (h ++ [EvHead (tts c text)]) (cu c text) with
          | HeadOk =>
              playLast net (cu c text) c
                ((h ++ [EvHead (tts c text)]) ++ [EvHead (cu c text)])
          | _ =>
              viaServers toLowerCase net c
                ((h ++ [EvHead (tts c text)]) ++ [EvHead (cu c text)])
                text force
          end
      end.
Proof.
  pose proof (truthy_ttsUrl c text) as Ht.
  pose proof (truthy_cacheUrl c text) as Hc.
  cbv [speak tryCatch bind viaServers playLast].
  fold (getAudioUrl toLowerCase net).
  destruct force; cbv [negb ret].
  - destruct (getAudioUrl toLowerCase net text true (st c h)) as [[url|e] [c' h']];
      [|done].
    rewrite playAudio_run. cbv [client history throw]. by destruct (play net h' url).
  - rewrite checkCacheDirectly_run.
    destruct (head net h (tts c text)).
    + rewrite Ht. cbv [bind]. rewrite playAudio_run.
      by destruct (play net _ _).
    + destruct (head net (h ++ [EvHead (tts c text)]) (cu c text)).
      * rewrite Hc. cbv [bind]. rewrite playAudio_run. by destruct (play net _ _).
      * destruct (getAudioUrl toLowerCase net text false _) as [[url|e] [c' h']];
          [|done].
        rewrite playAudio_run. cbv [client history throw].
        by destruct (play net h' url).
      * destruct (getAudioUrl toLowerCase net text false _) as [[url|e] [c' h']];
          [|done].
        rewrite playAudio_run. cbv [client history throw].
        by destruct (play net h' url).
    + destruct (head net (h ++ [EvHead (tts c text)]) (cu c text)).
      * rewrite Hc. cbv [bind]. rewrite playAudio_run. by destruct (play net _ _).
      * destruct (getAudioUrl toLowerCase net text false _) as [[url|e] [c' h']];
          [|done].
        rewrite playAudio_run. cbv [client history throw].
        by destruct (play net h' url).
      * destruct (getAudioUrl toLowerCase net text false _) as [[url|e] [c' h']];
          [|done].
        rewrite playAudio_run. cbv [client history throw].
        by destruct (play net h' url).
Qed.

Lemma playbackFails_play h' url :
  playbackFails net (h' ++ [EvPlay url]) ↔ play net h' url = false.
Proof.
  split.
  - intros (b & u & Heq & Hp). apply app_inj_tail in Heq as [-> [= ->]]. done.
  - intros Hp. by exists h', url.
Qed.

Lemma playbackFails_generate h' server text force :
  ¬ playbackFails net (h' ++ [EvGenerate server text force]).
Proof. intros (b & u & Heq & _). by apply app_inj_tail in Heq as [_ ?]. Qed.

Lemma playLast_raises url c h :
  (playLast net url c h).1 = Throw AudioUnavailable
  ↔ playbackFails net (history (playLast net url c h).2).
Proof.
  unfold playLast. simpl. rewrite playbackFails_play.
  destruct (play net h url); naive_solver.
Qed.

Lemma viaServers_raises (c : Client) h0 text (force : bool) :
  (if force then None else cache c !! key text) = None →
  let r := viaServers toLowerCase net c h0 text force in
  r.1 = Throw AudioUnavailable
  ↔ (genUrl (generate net h0 (serverUrl c) text force) = None
     ∧ genUrl (generate net (h0 ++ [EvGenerate (serverUrl c) text force])
                 (fallbackUrl c) text force) = None)
    ∨ playbackFails net (history r.2).
Proof.
  intros Hm r. subst r. unfold viaServers. rewrite getAudioUrl_run, Hm.
  cbv zeta.
  destruct (genUrl (generate net h0 _ _ _)) as [u1|] eqn:G1.
  - cbv [client history]. rewrite playLast_raises.
    split; [by right|]. by intros [[? _]|?].
  - destruct (genUrl (generate net (h0 ++ _) _ _ _)) as [u2|] eqn:G2.
    + cbv [client history]. rewrite playLast_raises.
      split; [by right|]. by intros [[_ ?]|?].
    + simpl. split; [auto|done].
Qed.

Lemma viaServers_memo c h0 text url :
  cache c !! key text = Some url →
  viaServers toLowerCase net c h0 text false = playLast net url c h0.
Proof. intros Hm. unfold viaServers. by rewrite getAudioUrl_run, Hm. Qed.

Lemma speak_raises_iff c h text force :
  let r := run (speak toLowerCase net text force) c h in
  r.1 = Throw AudioUnavailable
  ↔ everyTierFails toLowerCase net c h text force
    ∨ playbackFails net (history r.2).
Proof.
  intros r. subst r. unfold run, everyTierFails, afterProbes.
  rewrite speak_run. destruct force.
  - rewrite viaServers_raises by done.
    split; (intros [H|H]; [left|by right]); [by split|by destruct H].
  - destruct (head net h (tts c text)) eqn:H1.
    { rewrite playLast_raises. split; [by right|].
      intros [[H _]|H]; [|done]. by destruct (H eq_refl) as [? _]. }
    all: destruct (head net (h ++ [EvHead (tts c text)]) (cu c text)) eqn:H2.
    all: try (rewrite playLast_raises; split; [by right|];
              intros [[H _]|H]; [|done]; by destruct (H eq_refl) as (_ & ? & _)).
    all: destruct (cache c !! key text) as [url|] eqn:Hm.
    all: try (rewrite (viaServers_memo c _ text url Hm), playLast_raises;
              split; [by right|];
              intros [[H _]|H]; [|done]; by destruct (H eq_refl) as (_ & _ & ?)).
    all: rewrite viaServers_raises by done.
    all: split; (intros [H|H]; [left|by right]).
    all: try (split; [intros _; by repeat split|done]).
    all: by destruct H as [_ ?].
Qed.

Lemma playLast_outcome url c h :
  (playLast net url c h).1 = Return ()
  ∨ (playLast net url c h).1 = Throw AudioUnavailable.
Proof. unfold playLast. simpl. destruct (play net h url); auto. Qed.

Lemma viaServers_outcome c h text force :
  (viaServers toLowerCase net c h text force).1 = Return ()
  ∨ (viaServers toLowerCase net c h text force).1 = Throw AudioUnavailable.
Proof.
  unfold viaServers.
  destruct (getAudioUrl toLowerCase net text force (st c h)) as [[url|e] s].
  - apply playLast_outcome.
  - by right.
Qed.

Lemma speak_outcome c h text force :
  (run (speak toLowerCase net text force) c h).1 = Return ()
  ∨ (run (speak toLowerCase net text force) c h).1 = Throw AudioUnavailable.
Proof.
  unfold run. rewrite speak_run.
  repeat case_match;
    first [apply playLast_outcome | apply viaServers_outcome].
Qed.

(** No call of [speak] reaches the browser voice. *)
Lemma playLast_silent url c h t :
  EvBrowserSpeak t ∈ history (playLast net url c h).2 → EvBrowserSpeak t ∈ h.
Proof.
  unfold playLast. simpl. rewrite elem_of_app, list_elem_of_singleton.
  by intros [?|?].
Qed.

Lemma getAudioUrl_silent c h text force t :
  EvBrowserSpeak t
    ∈ history (getAudioUrl toLowerCase net text force (st c h)).2 →
  EvBrowserSpeak t ∈ h.
Proof.
  rewrite getAudioUrl_run. cbv zeta.
  destruct (if force then None else cache c !! key text); [done|].
  destruct (genUrl (generate net h _ _ _)); simpl.
  { rewrite elem_of_app, list_elem_of_singleton. by intros [?|?]. }
  destruct (genUrl (generate net (h ++ _) _ _ _)); simpl;
    rewrite !elem_of_app, !list_elem_of_singleton; by intros [[?|?]|?].
Qed.

Lemma viaServers_silent c h text force t :
  EvBrowserSpeak t ∈ history (viaServers toLowerCase net c h text force).2 →
  EvBrowserSpeak t ∈ h.
Proof.
  unfold viaServers.
  pose proof (getAudioUrl_silent c h text force t) as Hg.
  destruct (getAudioUrl toLowerCase net text force (st c h)) as [[url|e] s];
    [|done].
  intros H. by apply playLast_silent, Hg in H.
Qed.

Lemma speak_silent c h text force t :
  EvBrowserSpeak t ∈ history (run (speak toLowerCase net text force) c h).2 →
  EvBrowserSpeak t ∈ h.
Proof.
  unfold run. rewrite speak_run.
  repeat case_match; intros Hin;
    first [apply playLast_silent in Hin | apply viaServers_silent in Hin];
    revert Hin; rewrite ?elem_of_app, ?list_elem_of_singleton;
    intros; repeat match goal with Hor : _ ∨ _ |- _ => destruct Hor end;
    done.
Qed.

Lemma fallbackSpeak_run c h text :
  run (fallbackSpeak net text) c h
  = (Return (),
     st c (if hasSpeechSynthesis net then h ++ [EvBrowserSpeak text] else h)).
Proof. unfold run, fallbackSpeak. by destruct (hasSpeechSynthesis net). Qed.

Lemma speak_history c h text :
  let after := history (run (speak toLowerCase net text false) c h).2 in
  match head net h (tts c text) with
  | HeadOk => after = h ++ [EvHead (tts c text); EvPlay (tts c text)]
  | _ =>
      match head net (h ++ [EvHead (tts c text)]) (cu c text) with
      | HeadOk =>
          after = h ++ [EvHead (tts c text); EvHead (cu c text);
                        EvPlay (cu c text)]
      | _ =>
          match cache c !! key text with
          | Some url =>
              after = h ++ [EvHead (tts c text); EvHead (cu c text);
                            EvPlay url]
          | None =>
              ∃ rest,
                after = h ++ [EvHead (tts c text); EvHead (cu c text);
                              EvGenerate (serverUrl c) text false] ++ rest
          end
      end
  end.
Proof.
  intros after. subst after. unfold run. rewrite speak_run.
  destruct (head net h (tts c text)).
  { unfold playLast. simpl. by rewrite <- app_assoc. }
  all: destruct (head net (h ++ [EvHead (tts c text)]) (cu c text)).
  all: try (unfold playLast; simpl; by rewrite <- !app_assoc).
  all: destruct (cache c !! key text) as [url|] eqn:Hm.
  all: try (rewrite (viaServers_memo c _ text url Hm); unfold playLast; simpl;
            by rewrite <- !app_assoc).
  all: unfold viaServers; rewrite getAudioUrl_run, Hm; cbv zeta.
  all: destruct (genUrl (generate net _ _ _ _));
         [|destruct (genUrl (generate net _ _ _ _))];
         unfold playLast; simpl; rewrite <- !app_assoc; simpl;
         eexists; reflexivity.
Qed.
End ProtocolFacts.

Example speak_probes_although_memoised_sample :
  TTS.run (TTS.speak toLowerCaseLatin deadNetwork (units "Labas") false)
          memoClient []
  = (Return (),
     {| TTS.client := memoClient;
        TTS.history :=
          [TTS.EvHead (units "http://localhost:3001/labas.mp3");
           TTS.EvHead (units "http://localhost:8080/audio_cache/labas.mp3");
           TTS.EvPlay labasUrl] |}).
Proof. vm_compute. reflexivity. Qed.

(** ** Expiry *)

Section ExpiryFacts.
Import AudioManager.
Local Open Scope Z_scope.
Variable providers : Providers.

Lemma speak_cache_fresh s text language k item :
  isBlank text = false →
  getCacheKey text language s = (Return k, s) →
  enableCaching (manager s) = true →
  cache (manager s) !! k = Some item →
  clock s - timestamp item < cacheExpiry (manager s) →
  speak providers text language s = (Return true, s).
Proof.
  intros Hb Hk He Hc Hage.
  cbv [speak bind]. rewrite Hb, Hk.
  cbv [cacheTier bind getManager get ret]. rewrite He, Hc.
  cbv [isCacheValid bind dateNow getManager get ret playCachedAudio].
  by rewrite (proj2 (Z.ltb_lt _ _) Hage).
Qed.

Lemma speak_cache_expired s text language k item :
  isBlank text = false →
  getCacheKey text language s = (Return k, s) →
  enableCaching (manager s) = true →
  cache (manager s) !! k = Some item →
  cacheExpiry (manager s) ≤ clock s - timestamp item →
  speak providers text language s
  = speak providers text language (withCache s (delete k (cache (manager s)))).
Proof.
  intros Hb Hk He Hc Hage.
  assert (getCacheKey text language
            (withCache s (delete k (cache (manager s))))
          = (Return k, withCache s (delete k (cache (manager s))))) as Hk'.
  { revert Hk. unfold getCacheKey. destruct (btoa text); [|done].
    cbv [ret]. intros Heq. by simplify_eq. }
  cbv [speak bind]. rewrite Hb, Hk, Hk'.
  cbv [cacheTier bind getManager get ret]. rewrite He, Hc.
  cbv [isCacheValid bind dateNow getManager get ret playCachedAudio setCache put].
  rewrite (proj2 (Z.ltb_ge _ _) Hage).
  simpl. rewrite He. by rewrite lookup_delete_eq.
Qed.
End ExpiryFacts.

Example nextDayManager_key :
  AudioManager.getCacheKey (units "labas") (units "lithuanian") nextDayManager
  = (Return (units "lithuanian_bGFiYXM="), nextDayManager).
Proof. vm_compute. reflexivity. Qed.

Example nextDayManager_speak :
  AudioManager.speak noProviders (units "labas") (units "lithuanian") nextDayManager
  = (Return false, AudioManager.withCache nextDayManager ∅).
Proof. vm_compute. reflexivity. Qed.

Section StoreFacts.
Import Batch.
Variable toLowerCase : jsstring → jsstring.
Variable synthesize : list Event → jsstring → bool.

Lemma quickStart_cached d h text :
  text ≠ [] →
  isCached toLowerCase d text = true →
  quickStart toLowerCase synthesize text false {| disk := d; history := h |}
  = (Return (GetSound.generateTextKey toLowerCase text ++ units ".mp3"),
     {| disk := d; history := h |}).
Proof.
  intros Hne Hc. unfold isCached in Hc. apply andb_true_iff in Hc as [Hi Hf].
  unfold quickStart. destruct text as [|u text]; [done|].
  cbv [bind loadAudioCache existsSync get ret disk].
  by rewrite Hi, Hf.
Qed.
End StoreFacts.

(** ** Claims on the resolution protocol *)

(** The browser is left open for 25 hours between two requests for the same
    word: the second one is answered from the memo, no request is sent, and
    the entry is still in the memo afterwards. *)
Lemma memo_entry_survives_25_hours :
  TTS.run
    (exec TTS.getAudioUrl toLowerCaseLatin (servingNetwork true)
            (units "Labas") false in
     exec TTS.idle (25 * 60 * 60 * 1000) in
     TTS.getAudioUrl toLowerCaseLatin (servingNetwork true) (units "Labas") false)
    localClient []
  = (Return labasUrl,
     {| TTS.client := memoClient;
        TTS.history :=
          [TTS.EvGenerate (units "http://localhost:3001") (units "Labas") false;
           TTS.EvElapsed 90000000] |}).
Proof. vm_compute. reflexivity. Qed.

(** A memoised URL does not keep [speak] from probing both servers. *)
Lemma memo_hit_speak_still_probes :
  TTS.cache memoClient !! Client.generateTextKey toLowerCaseLatin (units "Labas")
  = Some labasUrl
  ∧ List.filter TTS.isNetworkEvent
      (TTS.history
         (TTS.run (TTS.speak toLowerCaseLatin deadNetwork (units "Labas") false)
                  memoClient []).2)
    = [TTS.EvHead (units "http://localhost:3001/labas.mp3");
       TTS.EvHead (units "http://localhost:8080/audio_cache/labas.mp3")].
Proof. split; vm_compute; reflexivity. Qed.

(** C2 (as the code has it). [getAudioUrl] with [forceRegenerate = false]
    looks in the memo first: a hit is returned with no request at all and
    the client unchanged, and only a miss leads to a synthesis request.
    [speak] does not start with the memo: its first action is always the
    existence probe of the TTS server; the memo is reached only when both
    probes miss, and a hit there is played without any synthesis request. *)
Theorem getAudioUrl_memo_first_speak_probes_first
    (toLowerCase : jsstring → jsstring) (net : TTS.Network)
    (c : TTS.Client) (h : list TTS.Event) (text : jsstring) :
  match TTS.cache c !! Client.generateTextKey toLowerCase text with
  | Some url =>
      TTS.run (TTS.getAudioUrl toLowerCase net text false) c h
      = (Return url, {| TTS.client := c; TTS.history := h |})
  | None =>
      ∃ rest,
        TTS.history (TTS.run (TTS.getAudioUrl toLowerCase net text false) c h).2
        = h ++ TTS.EvGenerate (TTS.serverUrl c) text false :: rest
  end
  ∧ match TTS.head net h (TTS.ttsUrlOf toLowerCase c text) with
    | TTS.HeadOk =>
        TTS.history (TTS.run (TTS.speak toLowerCase net text false) c h).2
        = h ++ [TTS.EvHead (TTS.ttsUrlOf toLowerCase c text);
                TTS.EvPlay (TTS.ttsUrlOf toLowerCase c text)]
    | _ =>
        match TTS.head net (h ++ [TTS.EvHead (TTS.ttsUrlOf toLowerCase c text)])
                (TTS.cacheUrlOf toLowerCase c text) with
        | TTS.HeadOk =>
            TTS.history (TTS.run (TTS.speak toLowerCase net text false) c h).2
            = h ++ [TTS.EvHead (TTS.ttsUrlOf toLowerCase c text);
                    TTS.EvHead (TTS.cacheUrlOf toLowerCase c text);
                    TTS.EvPlay (TTS.cacheUrlOf toLowerCase c text)]
        | _ =>
            match TTS.cache c !! Client.generateTextKey toLowerCase text with
            | Some url =>
                TTS.history
                  (TTS.run (TTS.speak toLowerCase net text false) c h).2
                = h ++ [TTS.EvHead (TTS.ttsUrlOf toLowerCase c text);
                        TTS.EvHead (TTS.cacheUrlOf toLowerCase c text);
                        TTS.EvPlay url]
            | None =>
                ∃ rest,
                  TTS.history
                    (TTS.run (TTS.speak toLowerCase net text false) c h).2
                  = h ++ [TTS.EvHead (TTS.ttsUrlOf toLowerCase c text);
                          TTS.EvHead (TTS.cacheUrlOf toLowerCase c text);
                          TTS.EvGenerate (TTS.serverUrl c) text false] ++ rest
            end
        end
    end.
Proof.
  split.
  - unfold TTS.run. rewrite getAudioUrl_run.
    destruct (TTS.cache c !! _); [done|]. cbv zeta.
    destruct (TTS.genUrl (TTS.generate net h _ _ _));
      [|destruct (TTS.genUrl (TTS.generate net (h ++ _) _ _ _))];
      simpl; rewrite <- ?app_assoc; eexists; reflexivity.
  - apply speak_history.
Qed.

(** The TTS server has the file and the probe finds it, but the audio
    element reports an error: [speak] raises although a tier succeeded. *)
Lemma speak_raises_although_probe_succeeded :
  (TTS.run (TTS.speak toLowerCaseLatin (servingNetwork false) (units "Labas") false)
           localClient []).1
  = Throw TTS.AudioUnavailable
  ∧ ¬ TTS.everyTierFails toLowerCaseLatin (servingNetwork false) localClient []
        (units "Labas") false.
Proof.
  split; [vm_compute; reflexivity|].
  intros [H _]. by destruct (H eq_refl) as [Hp _].
Qed.

(** C8 (as the code has it). [speak] raises the audio-unavailable error
    exactly when every tier fails (unless forced: both existence probes and
    the memo; in any case both synthesis requests) or when the playback of
    the URL it found fails; it raises no other error.  No call of [speak]
    uses the browser voice: that happens only in [fallbackSpeak], which the
    caller has to invoke. *)
Theorem speak_raises_iff_tiers_or_playback_fail
    (toLowerCase : jsstring → jsstring) (net : TTS.Network)
    (c : TTS.Client) (h : list TTS.Event) (text : jsstring) (force : bool) :
  ((TTS.run (TTS.speak toLowerCase net text force) c h).1
     = Throw TTS.AudioUnavailable
   ↔ TTS.everyTierFails toLowerCase net c h text force
     ∨ TTS.playbackFails net
         (TTS.history (TTS.run (TTS.speak toLowerCase net text force) c h).2))
  ∧ ((TTS.run (TTS.speak toLowerCase net text force) c h).1 = Return ()
     ∨ (TTS.run (TTS.speak toLowerCase net text force) c h).1
       = Throw TTS.AudioUnavailable)
  ∧ (∀ t, TTS.EvBrowserSpeak t
            ∈ TTS.history (TTS.run (TTS.speak toLowerCase net text force) c h).2 →
          TTS.EvBrowserSpeak t ∈ h)
  ∧ TTS.run (TTS.fallbackSpeak net text) c h
    = (Return (),
       {| TTS.client := c;
          TTS.history := if TTS.hasSpeechSynthesis net
                         then h ++ [TTS.EvBrowserSpeak text] else h |}).
Proof.
  split; [apply speak_raises_iff|].
  split; [apply speak_outcome|].
  split; [intros t; apply speak_silent|apply fallbackSpeak_run].
Qed.

Lemma speak_raises_iff_tiers_or_playback_fail_witness :
  (TTS.run (TTS.speak toLowerCaseLatin deadNetwork (units "Labas") false)
           localClient []).1
  = Throw TTS.AudioUnavailable
  ∧ TTS.run (TTS.fallbackSpeak deadNetwork (units "Labas")) localClient []
    = (Return (),
       {| TTS.client := localClient;
          TTS.history := [TTS.EvBrowserSpeak (units "Labas")] |}).
Proof.
  destruct (speak_raises_iff_tiers_or_playback_fail toLowerCaseLatin deadNetwork
              localClient [] (units "Labas") false) as (Hiff & _ & _ & Hfb).
  split; [|exact Hfb].
  apply Hiff. left. vm_compute. repeat split; congruence.
Defined.

(** ** Batch generation *)

Section BatchFacts.
Import Batch.
Variable toLowerCase : jsstring → jsstring.
Variable synthesize : list Event → jsstring → bool.
Hypothesis synthesize_succeeds : ∀ h text, synthesize h text = true.

Abbreviation keyOf text := (GetSound.generateTextKey toLowerCase text).
Abbreviation fileOf text := (keyOf text ++ units ".mp3").

(** The disk after the audio of [text] was generated. *)
Lemma quickStart_run d h text :
  text ≠ [] →
  quickStart toLowerCase synthesize text false {| disk := d; history := h |}
  = (Return (fileOf text),
     if isCached toLowerCase d text then {| disk := d; history := h |}
     else {| disk :=
               {| index := <[keyOf text :=
                               {| originalText := text;
                                  filename := fileOf text |}]> (index d);
                  files := {[fileOf text]} ∪ files d |};
             history := h ++ [EvSynthesize text] |}).
Proof.
  intros Hne. unfold quickStart, isCached.
  destruct text as [|u text]; [done|].
  cbv [bind loadAudioCache existsSync get ret disk negb].
  rewrite andb_true_l.
  destruct (cacheHas (index d) _ && bool_decide _); [done|].
  cbv [synthesizeSpeech writeFile saveAudioCache bind get put ret throw
       disk history index files].
  by rewrite synthesize_succeeds.
Qed.

Lemma cacheHas_insert idx k e k' :
  cacheHas idx k' = true → cacheHas (<[k := e]> idx) k' = true.
Proof.
  unfold cacheHas. rewrite !orb_true_iff, !bool_decide_eq_true.
  intros [Hs|Hc]; [left|by right].
  destruct (decide (k = k')) as [->|Hne].
  - rewrite lookup_insert_eq. eauto.
  - by rewrite lookup_insert_ne.
Qed.

Lemma cacheHas_insert_eq idx k e : cacheHas (<[k := e]> idx) k = true.
Proof.
  unfold cacheHas. rewrite orb_true_iff, bool_decide_eq_true.
  left. rewrite lookup_insert_eq. eauto.
Qed.

Lemma quickStart_keeps d h text t :
  text ≠ [] →
  isCached toLowerCase d t = true →
  isCached toLowerCase
    (disk (quickStart toLowerCase synthesize text false
             {| disk := d; history := h |}).2) t = true.
Proof.
  intros Hne Ht. rewrite quickStart_run by done. simpl.
  destruct (isCached toLowerCase d text); [done|]. simpl.
  unfold isCached in *. simpl.
  apply andb_true_iff in Ht as [Hi Hf]. apply andb_true_iff. split.
  - by apply cacheHas_insert.
  - apply bool_decide_eq_true in Hf. apply bool_decide_eq_true. set_solver.
Qed.

Lemma quickStart_stores d h text :
  text ≠ [] →
  isCached toLowerCase
    (disk (quickStart toLowerCase synthesize text false
             {| disk := d; history := h |}).2) text = true.
Proof.
  intros Hne. rewrite quickStart_run by done. simpl.
  destruct (isCached toLowerCase d text) eqn:Hc; [done|]. simpl.
  unfold isCached. simpl. apply andb_true_iff. split.
  - apply cacheHas_insert_eq.
  - apply bool_decide_eq_true. set_solver.
Qed.

Lemma generateAll_returns items s :
  Forall (λ t, t ≠ []) items →
  (generateAll toLowerCase synthesize items s).1 = Return ().
Proof.
  intros Hall. revert s. induction Hall as [|text items Hne _ IH]; intros s.
  - done.
  - simpl. cbv [bind tryCatch]. destruct s as [d h].
    rewrite quickStart_run by done. cbv [ret]. apply IH.
Qed.

Lemma generateAll_step text items d h :
  text ≠ [] →
  generateAll toLowerCase synthesize (text :: items) {| disk := d; history := h |}
  = generateAll toLowerCase synthesize items
      (quickStart toLowerCase synthesize text false
         {| disk := d; history := h |}).2.
Proof.
  intros Hne. simpl. cbv [bind tryCatch].
  rewrite quickStart_run by done. by cbv [ret].
Qed.

Lemma generateAll_keeps items s t :
  Forall (λ t, t ≠ []) items →
  isCached toLowerCase (disk s) t = true →
  isCached toLowerCase
    (disk (generateAll toLowerCase synthesize items s).2) t = true.
Proof.
  intros Hall. revert s. induction Hall as [|text items Hne _ IH]; intros s Ht.
  - done.
  - destruct s as [d h]. rewrite generateAll_step by done.
    apply IH. by apply quickStart_keeps.
Qed.

Lemma generateAll_stores items s :
  Forall (λ t, t ≠ []) items →
  Forall (λ t, isCached toLowerCase
                 (disk (generateAll toLowerCase synthesize items s).2) t = true)
         items.
Proof.
  intros Hall. revert s. induction Hall as [|text items Hne Hall IH]; intros s.
  - constructor.
  - destruct s as [d h]. rewrite generateAll_step by done.
    constructor; [|apply IH].
    apply generateAll_keeps; [done|]. by apply quickStart_stores.
Qed.

Lemma filter_all {A} (p : A → bool) l :
  Forall (λ x, p x = true) l → List.filter p l = l.
Proof. induction 1 as [|x l Hx _ IH]; simpl; [done|]. by rewrite Hx, IH. Qed.

Lemma filter_none {A} (p : A → bool) l :
  Forall (λ x, p x = true) l → List.filter (λ x, negb (p x)) l = [].
Proof. induction 1 as [|x l Hx _ IH]; simpl; [done|]. by rewrite Hx. Qed.

(** With a synthesis backend that answers every request and no empty text
    in the list, a second batch finds everything cached. *)
Lemma generateVocabularyAudio_twice_nonempty words s :
  Forall (λ t, t ≠ []) words →
  let s1 := (generateVocabularyAudio toLowerCase synthesize words s).2 in
  generateVocabularyAudio toLowerCase synthesize words s1
  = (Return {| total := length words; cached := length words; generated := 0 |},
     s1).
Proof.
  intros Hne s1.
  assert (Forall (λ t, isCached toLowerCase (disk s1) t = true) words) as Hall.
  { subst s1. unfold generateVocabularyAudio. cbv [bind get].
    set (new := List.filter (λ t, negb (isCached toLowerCase (disk s) t)) words).
    assert (Forall (λ t, t ≠ []) new) as Hnew.
    { apply Forall_forall. intros t Ht. apply list_elem_of_In, filter_In in Ht.
      destruct Ht as [Ht _]. apply list_elem_of_In in Ht.
      by eapply Forall_forall in Hne. }
    pose proof (generateAll_returns new s Hnew) as Hret.
    pose proof (generateAll_stores new s Hnew) as Hst.
    pose proof (λ t, generateAll_keeps new s t Hnew) as Hkeep.
    destruct (generateAll toLowerCase synthesize new s) as [r s'].
    simpl in Hret. subst r. cbv [ret]. simpl in *.
    apply Forall_forall. intros t Ht.
    destruct (isCached toLowerCase (disk s) t) eqn:Hc.
    - by apply Hkeep.
    - eapply Forall_forall in Hst; [exact Hst|].
      apply list_elem_of_In, filter_In. split; [by apply list_elem_of_In|].
      by rewrite Hc. }
  unfold generateVocabularyAudio at 1. cbv [bind get].
  rewrite (filter_all _ _ Hall), (filter_none _ _ Hall). simpl.
  by cbv [ret].
Qed.
End BatchFacts.

Example generateVocabularyAudio_twice_sample :
  (Batch.generateVocabularyAudio toLowerCaseLatin alwaysSynthesize
     [units "Labas rytas"; units "labas rytas!"; units "Kaip sekasi?"]
     (Batch.generateVocabularyAudio toLowerCaseLatin alwaysSynthesize
        [units "Labas rytas"; units "labas rytas!"; units "Kaip sekasi?"]
        freshServer).2).1
  = Return {| Batch.total := 3; Batch.cached := 3; Batch.generated := 0 |}.
Proof. vm_compute. reflexivity. Qed.

(** C7. A batch that contains the empty text is not idempotent.  The
    partition loop derives the key of the text as given (the empty key),
    while [quickStart] replaces an empty text by its default sentence and
    stores the audio under the key of that sentence.  The empty key is
    never stored, so the second call again counts the item as new:
    [generated] is 1, not 0 (no second synthesis request is sent: the
    default sentence is found in the cache). *)
Theorem generateVocabularyAudio_empty_text_counted_again :
  Batch.generateVocabularyAudio toLowerCaseLatin alwaysSynthesize [[]] freshServer
  = (Return {| Batch.total := 1; Batch.cached := 0; Batch.generated := 1 |},
     {| Batch.disk :=
          {| Batch.index :=
               {[ units "labasrytaskaipsekasi" :=
                    {| Batch.originalText := Batch.defaultText;
                       Batch.filename := units "labasrytaskaipsekasi.mp3" |} ]};
             Batch.files := {[ units "labasrytaskaipsekasi.mp3" ]} |};
        Batch.history := [Batch.EvSynthesize Batch.defaultText] |})
  ∧ Batch.generateVocabularyAudio toLowerCaseLatin alwaysSynthesize [[]]
      (Batch.generateVocabularyAudio toLowerCaseLatin alwaysSynthesize [[]]
         freshServer).2
    = (Return {| Batch.total := 1; Batch.cached := 0; Batch.generated := 1 |},
       (Batch.generateVocabularyAudio toLowerCaseLatin alwaysSynthesize [[]]
          freshServer).2).
Proof. split; vm_compute; reflexivity. Qed.

(** ** Claims on expiry *)

(** C3 (as the code has it). The URL memo of [LithuanianTTSClient] has no
    time to live: however long the page stays open, a memoised URL is
    returned without a request and stays in the memo.  The expiry of the
    repository is that of the request cache of [EnhancedAudioManager]
    ([cacheExpiry], 24 hours unless configured otherwise): an entry younger
    than [cacheExpiry] answers [speak] at once; an older one (or one of
    exactly that age) is deleted at lookup and [speak] goes on as if it had
    never been stored.  The store of the server does not expire either: a
    text whose index entry and file exist is served without synthesis. *)
Theorem only_the_request_cache_expires
    (toLowerCase : jsstring → jsstring) (net : TTS.Network)
    (c : TTS.Client) (h : list TTS.Event) (text url : jsstring) (ms : Z)
    (providers : AudioManager.Providers) (s : AudioManager.State)
    (spoken language k : jsstring) (item : AudioManager.CacheItem) :
  TTS.cache c !! Client.generateTextKey toLowerCase text = Some url →
  AudioManager.isBlank spoken = false →
  AudioManager.getCacheKey spoken language s = (Return k, s) →
  AudioManager.enableCaching (AudioManager.manager s) = true →
  AudioManager.cache (AudioManager.manager s) !! k = Some item →
  TTS.run (exec TTS.idle ms in TTS.getAudioUrl toLowerCase net text false) c h
  = (Return url,
     {| TTS.client := c; TTS.history := h ++ [TTS.EvElapsed ms] |})
  ∧ AudioManager.speak providers spoken language s
    = (if (AudioManager.clock s - AudioManager.timestamp item
           <? AudioManager.cacheExpiry (AudioManager.manager s))%Z
       then (Return true, s)
       else AudioManager.speak providers spoken language
              (AudioManager.withCache s
                 (delete k (AudioManager.cache (AudioManager.manager s)))))
  ∧ AudioManager.cacheExpiry AudioManager.newManager = 86400000%Z
  ∧ ∀ synthesize d hd t,
      t ≠ [] →
      Batch.isCached toLowerCase d t = true →
      Batch.quickStart toLowerCase synthesize t false
        {| Batch.disk := d; Batch.history := hd |}
      = (Return (GetSound.generateTextKey toLowerCase t ++ units ".mp3"),
         {| Batch.disk := d; Batch.history := hd |}).
Proof.
  intros Hm Hb Hk He Hc. split; [|split; [|split]].
  - unfold TTS.run. cbv [bind TTS.idle TTS.emit get put ret TTS.client TTS.history].
    by rewrite getAudioUrl_run, Hm.
  - destruct (Z.ltb_spec (AudioManager.clock s - AudioManager.timestamp item)
                (AudioManager.cacheExpiry (AudioManager.manager s))).
    + by eapply speak_cache_fresh.
    + by eapply speak_cache_expired.
  - reflexivity.
  - intros synthesize d hd t. apply quickStart_cached.
Qed.

Lemma only_the_request_cache_expires_witness :
  TTS.run
    (exec TTS.idle 90000000 in
     TTS.getAudioUrl toLowerCaseLatin deadNetwork (units "Labas") false)
    memoClient []
  = (Return labasUrl,
     {| TTS.client := memoClient; TTS.history := [TTS.EvElapsed 90000000] |})
  ∧ AudioManager.speak noProviders (units "labas") (units "lithuanian")
      nextDayManager
    = AudioManager.speak noProviders (units "labas") (units "lithuanian")
        (AudioManager.withCache nextDayManager
           (delete (units "lithuanian_bGFiYXM=")
              (AudioManager.cache (AudioManager.manager nextDayManager))))
  ∧ Batch.quickStart toLowerCaseLatin alwaysSynthesize (units "Labas") false
      {| Batch.disk := labasDisk; Batch.history := [] |}
    = (Return (units "labas.mp3"),
       {| Batch.disk := labasDisk; Batch.history := [] |}).
Proof.
  destruct (only_the_request_cache_expires toLowerCaseLatin deadNetwork
              memoClient [] (units "Labas") labasUrl 90000000
              noProviders nextDayManager (units "labas") (units "lithuanian")
              (units "lithuanian_bGFiYXM=") labasItem)
    as (H1 & H2 & _ & H4); try (vm_compute; reflexivity).
  split; [exact H1|]. split; [exact H2|].
  apply (H4 alwaysSynthesize labasDisk [] (units "Labas")).
  - discriminate.
  - vm_compute. reflexivity.
Defined.

(** * Further properties *)

(** ** Scheduling *)

Section ScheduleFacts.
Import SRS.
Local Open Scope Z_scope.

Lemma level_cases L :
  1 ≤ L ≤ 10 →
  L = 1 ∨ L = 2 ∨ L = 3 ∨ L = 4 ∨ L = 5 ∨ L = 6 ∨ L = 7 ∨ L = 8 ∨ L = 9 ∨ L = 10.
Proof. lia. Qed.

Lemma rating_cases r :
  getDifficultyMultiplier r
  = (if r =? 1 then QArith_base.Qmake 1 2
     else if r =? 3 then QArith_base.Qmake 3 2 else QArith_base.Qmake 1 1).
Proof.
  unfold getDifficultyMultiplier.
  destruct (Z.eqb_spec r 1), (Z.eqb_spec r 2), (Z.eqb_spec r 3); try reflexivity; lia.
Qed.
End ScheduleFacts.

(** X1. From a level between 1 and 10, either outcome leads to a level
    between 1 and 10, and with the default multiplier the word is
    scheduled 2^(newLevel-1) days ahead. *)
Theorem calculateNextReview_in_range_doubles
    (now : Z) (addDays : Z → Z → Z) (L : Z) (correct : bool) :
  (1 ≤ L ≤ 10)%Z →
  let r := SRS.calculateNextReview now addDays L correct (QArith_base.Qmake 1 1) in
  (1 ≤ SRS.newLevel r ≤ 10)%Z
  ∧ SRS.intervalDays r = (2 ^ (SRS.newLevel r - 1))%Z
  ∧ SRS.nextReviewDate r = addDays now (2 ^ (SRS.newLevel r - 1))%Z.
Proof.
  intros HL r. subst r.
  destruct (level_cases L HL) as [->|[->|[->|[->|[->|[->|[->|[->|[->| ->]]]]]]]]];
    destruct correct; (split; [by vm_compute|split; reflexivity]).
Qed.

Lemma calculateNextReview_in_range_doubles_witness :
  (1 ≤ SRS.newLevel (SRS.calculateNextReview 0 plainDays 3 true (QArith_base.Qmake 1 1)) ≤ 10)%Z
  ∧ SRS.intervalDays (SRS.calculateNextReview 0 plainDays 3 true (QArith_base.Qmake 1 1))
    = (2 ^ (SRS.newLevel (SRS.calculateNextReview 0 plainDays 3 true (QArith_base.Qmake 1 1)) - 1))%Z
  ∧ SRS.nextReviewDate (SRS.calculateNextReview 0 plainDays 3 true (QArith_base.Qmake 1 1))
    = plainDays 0 (2 ^ (SRS.newLevel (SRS.calculateNextReview 0 plainDays 3 true (QArith_base.Qmake 1 1)) - 1))%Z.
Proof. apply (calculateNextReview_in_range_doubles 0 plainDays 3 true). lia. Defined.

(** X2. With the multiplier of a self-assessment, the interval of a word
    whose level is between 1 and 10 lies between 0 and 768 days; it is 0
    exactly when the new level is 1 and the rating is 1 (difficult): such a
    word is due again at once. *)
Theorem calculateNextReview_rated_interval_bounds
    (now : Z) (addDays : Z → Z → Z) (L : Z) (correct : bool) (rating : Z) :
  (1 ≤ L ≤ 10)%Z →
  let r := SRS.calculateNextReview now addDays L correct
             (SRS.getDifficultyMultiplier rating) in
  (0 ≤ SRS.intervalDays r ≤ 768)%Z
  ∧ (SRS.intervalDays r = 0%Z ↔ SRS.newLevel r = 1%Z ∧ rating = 1%Z).
Proof.
  intros HL r. subst r. rewrite rating_cases.
  destruct (Z.eqb_spec rating 1) as [->|H1]; [|destruct (Z.eqb_spec rating 3)];
    destruct (level_cases L HL) as [->|[->|[->|[->|[->|[->|[->|[->|[->| ->]]]]]]]]];
    destruct correct.
  all: split; [by vm_compute|].
  all: split;
    [ intros H; vm_compute in H;
      first [discriminate H | split; reflexivity]
    | intros [Hl Hr];
      first [ contradiction | reflexivity
            | vm_compute in Hl; discriminate Hl | discriminate Hr ] ].
Qed.

Lemma calculateNextReview_rated_interval_bounds_witness :
  SRS.intervalDays (SRS.calculateNextReview 0 plainDays 2 false
                      (SRS.getDifficultyMultiplier 1)) = 0%Z.
Proof.
  apply (calculateNextReview_rated_interval_bounds 0 plainDays 2 false 1); [lia|].
  split; reflexivity.
Defined.

(** ** The vocabulary *)

Section VocabularyFacts.
Import SRS.
Local Open Scope Z_scope.
Variable now : Z.
Variable addDays : Z → Z → Z.

Lemma find_app_none (p : Word → bool) pre w post :
  Forall (λ x, p x = false) pre → p w = true →
  List.find p (pre ++ w :: post) = Some w.
Proof.
  induction 1 as [|x pre Hx _ IH]; simpl; intros Hw.
  - by rewrite Hw.
  - rewrite Hx. by apply IH.
Qed.

Lemma mutateFirst_app (p : Word → bool) f pre w post :
  Forall (λ x, p x = false) pre → p w = true →
  mutateFirst p f (pre ++ w :: post) = pre ++ f w :: post.
Proof.
  induction 1 as [|x pre Hx _ IH]; simpl; intros Hw.
  - by rewrite Hw.
  - rewrite Hx. by rewrite IH.
Qed.

Lemma removeFirst_app (p : Word → bool) pre w post :
  Forall (λ x, p x = false) pre → p w = true →
  removeFirst p (pre ++ w :: post) = pre ++ post.
Proof.
  induction 1 as [|x pre Hx _ IH]; simpl; intros Hw.
  - by rewrite Hw.
  - rewrite Hx. by rewrite IH.
Qed.

Lemma existsb_app_true (p : Word → bool) pre w post :
  p w = true → existsb p (pre ++ w :: post) = true.
Proof.
  intros Hw. rewrite existsb_app. simpl. rewrite Hw.
  by rewrite orb_true_r.
Qed.

Lemma deleteWord_found wordId pre w post saved :
  Forall (λ x, id x ≠ wordId) pre →
  id w = wordId →
  deleteWord wordId {| words := pre ++ w :: post; stored := saved |}
  = (true, {| words := pre ++ post; stored := Some (pre ++ post) |}).
Proof.
  intros Hpre Hw. unfold deleteWord. simpl.
  assert (Forall (λ x, String.eqb (id x) wordId = false) pre) as Hpre'.
  { eapply Forall_impl; [exact Hpre|]. intros x Hx. by apply String.eqb_neq. }
  assert (String.eqb (id w) wordId = true) as Hw' by by apply String.eqb_eq.
  rewrite (existsb_app_true _ pre w post Hw').
  by rewrite (removeFirst_app _ pre w post Hpre' Hw').
Qed.

Lemma days_until_next_positive lvl :
  1 ≤ orElse (index intervals (lvl - 1)) 512.
Proof.
  unfold index. destruct (Z.leb_spec 0 (lvl - 1)) as [Hl|Hl]; [|simpl; lia].
  destruct (Z.to_nat (lvl - 1)) as [|[|[|[|[|[|[|[|[|[|n]]]]]]]]]];
    simpl; lia.
Qed.

Lemma reviewed_wellFormed c w : wellFormed w → wellFormed (reviewed now addDays c w).
Proof. unfold wellFormed. destruct c; simpl; lia. Qed.

Lemma find_split (p : Word → bool) l x :
  List.find p l = Some x →
  ∃ pre post, l = pre ++ x :: post
              ∧ Forall (λ y, p y = false) pre ∧ p x = true.
Proof.
  induction l as [|y l IH]; simpl; [done|].
  destruct (p y) eqn:Hy.
  - intros [= ->]. by exists [], l.
  - intros Hf. destruct (IH Hf) as (pre & post & -> & Hpre & Hx).
    exists (y :: pre), post. repeat split; [|done]. by constructor.
Qed.

Lemma mutateFirst_Forall (P : Word → Prop) p f l :
  (∀ w, P w → P (f w)) → Forall P l → Forall P (mutateFirst p f l).
Proof.
  intros Hf. induction 1 as [|x l Hx Hl IH]; simpl; [constructor|].
  destruct (p x); constructor; auto.
Qed.
End VocabularyFacts.

(** X3. [updateWordSRS] changes the first word that has the id and nothing
    else: the words before and after it, their order and their number stay,
    the call returns [true], and what is saved is the new array. *)
Theorem updateWordSRS_rewrites_first_match_only
    (now : Z) (addDays : Z → Z → Z) (wordId : string) (correct : bool)
    (pre post : list SRS.Word) (w : SRS.Word) (saved : option (list SRS.Word)) :
  Forall (λ x, SRS.id x ≠ wordId) pre →
  SRS.id w = wordId →
  SRS.updateWordSRS now addDays wordId correct
    {| SRS.words := pre ++ w :: post; SRS.stored := saved |}
  = (true,
     {| SRS.words := pre ++ SRS.reviewed now addDays correct w :: post;
        SRS.stored := Some (pre ++ SRS.reviewed now addDays correct w :: post) |}).
Proof.
  intros Hpre Hw. unfold SRS.updateWordSRS. simpl.
  assert (Forall (λ x, String.eqb (SRS.id x) wordId = false) pre) as Hpre'.
  { eapply Forall_impl; [exact Hpre|]. intros x Hx. by apply String.eqb_neq. }
  assert (String.eqb (SRS.id w) wordId = true) as Hw' by by apply String.eqb_eq.
  rewrite (find_app_none _ pre w post Hpre' Hw').
  by rewrite (mutateFirst_app _ _ pre w post Hpre' Hw').
Qed.

Lemma updateWordSRS_rewrites_first_match_only_witness :
  SRS.updateWordSRS 0 plainDays "_c" true
    {| SRS.words := sampleDue; SRS.stored := None |}
  = (true,
     {| SRS.words :=
          [dueWord "_a" 2 50; dueWord "_b" 1 70]
          ++ SRS.reviewed 0 plainDays true (dueWord "_c" 2 50)
          :: [dueWord "_d" 1 10];
        SRS.stored :=
          Some ([dueWord "_a" 2 50; dueWord "_b" 1 70]
                ++ SRS.reviewed 0 plainDays true (dueWord "_c" 2 50)
                :: [dueWord "_d" 1 10]) |}).
Proof.
  apply (updateWordSRS_rewrites_first_match_only 0 plainDays "_c" true
           [dueWord "_a" 2 50; dueWord "_b" 1 70] [dueWord "_d" 1 10]
           (dueWord "_c" 2 50) None).
  - repeat constructor; simpl; discriminate.
  - reflexivity.
Defined.

(** X4. [updateWordSRS] keeps the stored words well formed: if every level
    is between 1 and 10 and no word has more correct answers than reviews,
    the same holds after the call, whatever the id and the outcome. *)
Theorem updateWordSRS_keeps_words_well_formed
    (now : Z) (addDays : Z → Z → Z) (wordId : string) (correct : bool)
    (vd : SRS.VocabularyData) :
  Forall SRS.wellFormed (SRS.words vd) →
  Forall SRS.wellFormed
    (SRS.words (SRS.updateWordSRS now addDays wordId correct vd).2).
Proof.
  intros Hwf. unfold SRS.updateWordSRS.
  destruct (List.find _ _); [|done]. simpl.
  apply mutateFirst_Forall; [|done].
  intros x. apply reviewed_wellFormed.
Qed.

Lemma updateWordSRS_keeps_words_well_formed_witness :
  Forall SRS.wellFormed
    (SRS.words (SRS.updateWordSRS 0 plainDays "_w1" true
                  {| SRS.words := [wordAtLevel4]; SRS.stored := None |}).2).
Proof.
  apply updateWordSRS_keeps_words_well_formed.
  repeat constructor; simpl; lia.
Defined.

(** X5. A word that was just reviewed is not due: when ids are unique and
    adding one day or more leads to a later date, no word with the reviewed
    id is among the words for review at the time of the review. *)
Theorem reviewed_word_is_not_due
    (now : Z) (addDays : Z → Z → Z) (wordId : string) (correct : bool)
    (vd : SRS.VocabularyData) (w : SRS.Word) :
  (∀ t d, (1 ≤ d)%Z → (t < addDays t d)%Z) →
  NoDup (SRS.id <$> SRS.words vd) →
  w ∈ SRS.getWordsForReview now
        (SRS.updateWordSRS now addDays wordId correct vd).2 →
  SRS.id w ≠ wordId.
Proof.
  intros Hadd Hnd Hin Hid. unfold SRS.updateWordSRS in Hin.
  destruct (List.find _ (SRS.words vd)) as [x|] eqn:Hfind; simpl in Hin.
  - apply find_split in Hfind as (pre & post & Hw & Hpre & Hx).
    rewrite Hw in Hin, Hnd.
    rewrite (mutateFirst_app _ _ pre x post Hpre Hx) in Hin.
    unfold SRS.getWordsForReview in Hin. simpl in Hin.
    apply list_elem_of_In, filter_In in Hin as [Hin Hdue].
    apply list_elem_of_In, elem_of_app in Hin as [Hin|Hin].
    + eapply Forall_forall in Hpre; [|exact Hin]. simpl in Hpre.
      apply String.eqb_neq in Hpre. done.
    + apply elem_of_cons in Hin as [->|Hin].
      * simpl in Hdue. apply Z.leb_le in Hdue.
        pose proof (days_until_next_positive
                      (if correct
                       then Z.min (SRS.level (SRS.srsData x) + 1) 10
                       else Z.max (SRS.level (SRS.srsData x) - 1) 1)) as Hd.
        specialize (Hadd now _ Hd). lia.
      * rewrite fmap_app, fmap_cons in Hnd.
        apply NoDup_app in Hnd as (_ & _ & Hnd).
        apply NoDup_cons in Hnd as [Hnd _]. apply Hnd.
        apply String.eqb_eq in Hx. rewrite Hx, <- Hid.
        by apply list_elem_of_fmap_2.
  - unfold SRS.getWordsForReview in Hin.
    apply list_elem_of_In, filter_In in Hin as [Hin _].
    apply find_none_iff with (w := w) in Hfind; [|by apply list_elem_of_In].
    apply String.eqb_neq in Hfind. done.
Qed.

Lemma reviewed_word_is_not_due_witness :
  dueWord "_d" 1 10
    ∈ SRS.getWordsForReview 100
        (SRS.updateWordSRS 100 plainDays "_a" false
           {| SRS.words := sampleDue; SRS.stored := None |}).2
  ∧ SRS.id (dueWord "_d" 1 10) ≠ "_a".
Proof.
  assert (dueWord "_d" 1 10
            ∈ SRS.getWordsForReview 100
                (SRS.updateWordSRS 100 plainDays "_a" false
                   {| SRS.words := sampleDue; SRS.stored := None |}).2) as Hin.
  { vm_compute. repeat constructor. }
  split; [exact Hin|].
  apply (reviewed_word_is_not_due 100 plainDays "_a" false
           {| SRS.words := sampleDue; SRS.stored := None |});
    [ unfold plainDays; intros; lia
    | apply (bool_decide_unpack _); vm_compute; exact I
    | exact Hin ].
Defined.

(** X6. A word that was just added is due: [addWord] appends a word of
    level 1 whose review date is the time of the call, saves the array, and
    [getWordsForReview] at that time (or later) lists the new word after
    the words that were due before. *)
Theorem added_word_is_due_at_once
    (now later : Z) (newId : string) (text : jsstring) (vd : SRS.VocabularyData) :
  (now ≤ later)%Z →
  let r := SRS.addWord now newId text vd in
  SRS.words r.2 = SRS.words vd ++ [r.1]
  ∧ SRS.stored r.2 = Some (SRS.words vd ++ [r.1])
  ∧ SRS.level (SRS.srsData r.1) = 1%Z
  ∧ SRS.getWordsForReview later r.2 = SRS.getWordsForReview later vd ++ [r.1].
Proof.
  intros Hle r. subst r. unfold SRS.addWord, SRS.getWordsForReview. simpl.
  repeat split. rewrite List.filter_app. simpl.
  by rewrite (proj2 (Z.leb_le now later) Hle).
Qed.

Lemma added_word_is_due_at_once_witness :
  SRS.getWordsForReview 5 (SRS.addWord 5 "_new" (units "labas")
                             {| SRS.words := sampleDue; SRS.stored := None |}).2
  = SRS.getWordsForReview 5 {| SRS.words := sampleDue; SRS.stored := None |}
    ++ [(SRS.addWord 5 "_new" (units "labas")
           {| SRS.words := sampleDue; SRS.stored := None |}).1].
Proof.
  apply (added_word_is_due_at_once 5 5 "_new" (units "labas")
           {| SRS.words := sampleDue; SRS.stored := None |}).
  lia.
Defined.

(** X7. [deleteWord] removes the first word that has the id and only that
    one, returns [true] and saves the shorter array. *)
Theorem deleteWord_removes_first_match_only
    (wordId : string) (pre post : list SRS.Word) (w : SRS.Word)
    (saved : option (list SRS.Word)) :
  Forall (λ x, SRS.id x ≠ wordId) pre →
  SRS.id w = wordId →
  SRS.deleteWord wordId {| SRS.words := pre ++ w :: post; SRS.stored := saved |}
  = (true, {| SRS.words := pre ++ post; SRS.stored := Some (pre ++ post) |}).
Proof. apply deleteWord_found. Qed.

Lemma deleteWord_removes_first_match_only_witness :
  SRS.deleteWord "_b" {| SRS.words := sampleDue; SRS.stored := None |}
  = (true,
     {| SRS.words := [dueWord "_a" 2 50; dueWord "_c" 2 50; dueWord "_d" 1 10];
        SRS.stored :=
          Some [dueWord "_a" 2 50; dueWord "_c" 2 50; dueWord "_d" 1 10] |}).
Proof.
  apply (deleteWord_removes_first_match_only "_b" [dueWord "_a" 2 50]
           [dueWord "_c" 2 50; dueWord "_d" 1 10] (dueWord "_b" 1 70) None);
    [repeat constructor; simpl; discriminate | reflexivity].
Defined.

(** X8. When no stored word has the id, [deleteWord] returns [false] and
    leaves the words and the saved copy as they are. *)
Theorem deleteWord_unknown_id_changes_nothing
    (wordId : string) (vd : SRS.VocabularyData) :
  Forall (λ x, SRS.id x ≠ wordId) (SRS.words vd) →
  SRS.deleteWord wordId vd = (false, vd).
Proof.
  intros Hno. unfold SRS.deleteWord.
  assert (existsb (λ x, String.eqb (SRS.id x) wordId) (SRS.words vd) = false)
    as ->; [|done].
  induction Hno as [|x l Hx _ IH]; simpl; [done|].
  rewrite IH. by rewrite (proj2 (String.eqb_neq _ _) Hx).
Qed.

Lemma deleteWord_unknown_id_changes_nothing_witness :
  SRS.deleteWord "_zz" {| SRS.words := sampleDue; SRS.stored := None |}
  = (false, {| SRS.words := sampleDue; SRS.stored := None |}).
Proof.
  apply deleteWord_unknown_id_changes_nothing.
  repeat constructor; simpl; discriminate.
Defined.

(** X9. Adding a word under an id that no stored word has and deleting
    that id again gives back the words array of before (and saves it). *)
Theorem addWord_then_deleteWord_restores_words
    (now : Z) (newId : string) (text : jsstring) (vd : SRS.VocabularyData) :
  Forall (λ x, SRS.id x ≠ newId) (SRS.words vd) →
  SRS.deleteWord newId (SRS.addWord now newId text vd).2
  = (true, {| SRS.words := SRS.words vd; SRS.stored := Some (SRS.words vd) |}).
Proof.
  intros Hfresh. unfold SRS.addWord. simpl.
  rewrite deleteWord_found by done. by rewrite app_nil_r.
Qed.

Lemma addWord_then_deleteWord_restores_words_witness :
  SRS.deleteWord "_new"
    (SRS.addWord 5 "_new" (units "labas")
       {| SRS.words := sampleDue; SRS.stored := None |}).2
  = (true, {| SRS.words := sampleDue; SRS.stored := Some sampleDue |}).
Proof.
  apply (addWord_then_deleteWord_restores_words 5 "_new" (units "labas")
           {| SRS.words := sampleDue; SRS.stored := None |}).
  repeat constructor; simpl; discriminate.
Defined.

(** ** Statistics *)

Section StatisticsFacts.
Import SRS.
Variable dayOf : Z → Z.

Lemma streakLoop_le n day words : streakLoop dayOf n day words ≤ n.
Proof.
  revert day. induction n as [|n IH]; intros day; simpl; [done|].
  destruct (existsb _ _); [|lia]. specialize (IH (day - 1)%Z). lia.
Qed.

Lemma streakLoop_days n day words (i : nat) :
  i < streakLoop dayOf n day words →
  existsb (reviewedOn dayOf (day - Z.of_nat i)%Z) words = true.
Proof.
  revert day i. induction n as [|n IH]; intros day i; simpl; [lia|].
  destruct (existsb (reviewedOn dayOf day) words) eqn:Hd; [|lia].
  destruct i as [|i]; intros Hi.
  - by rewrite Z.sub_0_r.
  - replace (day - Z.of_nat (S i))%Z with (day - 1 - Z.of_nat i)%Z by lia.
    apply IH. lia.
Qed.

Lemma streakLoop_gap n day words :
  streakLoop dayOf n day words < n →
  existsb (reviewedOn dayOf
             (day - Z.of_nat (streakLoop dayOf n day words))%Z) words = false.
Proof.
  revert day. induction n as [|n IH]; intros day; simpl; [lia|].
  destruct (existsb (reviewedOn dayOf day) words) eqn:Hd.
  - intros Hlt.
    replace (day - Z.of_nat (S (streakLoop dayOf n (day - 1) words)))%Z
      with (day - 1 - Z.of_nat (streakLoop dayOf n (day - 1) words))%Z by lia.
    apply IH. lia.
  - intros _. by rewrite Z.sub_0_r.
Qed.

Lemma categorize_total lvl d : distTotal (categorize lvl d) = S (distTotal d).
Proof.
  unfold categorize, distTotal.
  repeat (destruct (_ <=? _)%Z); simpl; lia.
Qed.

Lemma categorize_mastered lvl d :
  mastered (categorize lvl d)
  = if (9 <=? lvl)%Z then S (mastered d) else mastered d.
Proof.
  unfold categorize.
  destruct (Z.leb_spec lvl 3), (Z.leb_spec lvl 6), (Z.leb_spec lvl 8),
    (Z.leb_spec 9 lvl); simpl; try reflexivity; lia.
Qed.

Lemma tally_fold now words t :
  let t' := foldl (tallyWord dayOf now) t words in
  distTotal (tallied t') = distTotal (tallied t) + length words
  ∧ today t'
    = today t + length (List.filter (reviewedOn dayOf (dayOf now)) words)
  ∧ mastered (tallied t')
    = mastered (tallied t)
      + length (List.filter (λ w, 9 <=? level (srsData w))%Z words).
Proof.
  revert t. induction words as [|w words IH]; intros t; simpl.
  - repeat split; lia.
  - destruct (IH (tallyWord dayOf now t w)) as (H1 & H2 & H3).
    rewrite H1, H2, H3. simpl. rewrite categorize_total, categorize_mastered.
    destruct (reviewedOn dayOf (dayOf now) w);
      destruct (9 <=? level (srsData w))%Z; simpl; repeat split; lia.
Qed.

Lemma existsb_filter_length {A} (p : A → bool) l :
  existsb p l = false ↔ length (List.filter p l) = 0.
Proof.
  induction l as [|x l IH]; simpl; [done|].
  destruct (p x); simpl; [split; [done|lia]|done].
Qed.

Lemma countRating_total (results : list SessionResult) :
  countRating 1 results + countRating 2 results + countRating 3 results
  ≤ length results.
Proof.
  unfold countRating. induction results as [|x l IH]; simpl; [lia|].
  destruct (Z.eqb_spec (userRating x) 1), (Z.eqb_spec (userRating x) 2),
    (Z.eqb_spec (userRating x) 3); simpl; lia.
Qed.

Lemma generateStats_today now words :
  reviewsToday (generateStats dayOf now words)
  = length (List.filter (reviewedOn dayOf (dayOf now)) words).
Proof.
  unfold generateStats. case_bool_decide as Hlen.
  - by destruct words.
  - destruct (tally_fold now words noTally) as (_ & H2 & _). simpl in *.
    by rewrite H2.
Qed.

Lemma streak_zero_iff now words :
  streakDays (generateStats dayOf now words) = 0
  ↔ existsb (reviewedOn dayOf (dayOf now)) words = false.
Proof.
  assert (streakDays (generateStats dayOf now words)
          = calculateStreak dayOf now words) as ->.
  { unfold generateStats. by case_bool_decide. }
  unfold calculateStreak. simpl.
  destruct (existsb _ words); split; (done || lia).
Qed.
End StatisticsFacts.

(** X10. [calculateStreak] returns at most 365.  It counts the days, from
    today backwards, on which some word was last reviewed: each of the
    counted days has such a word, and unless the count reached 365 the day
    before them has none. *)
Theorem calculateStreak_counts_consecutive_days
    (dayOf : Z → Z) (now : Z) (words : list SRS.Word) :
  SRS.calculateStreak dayOf now words ≤ 365
  ∧ (∀ i : nat,
       i < SRS.calculateStreak dayOf now words →
       ∃ w, w ∈ words
            ∧ SRS.reviewedOn dayOf (dayOf now - Z.of_nat i)%Z w = true)
  ∧ (SRS.calculateStreak dayOf now words < 365 →
     ∀ w, w ∈ words →
          SRS.reviewedOn dayOf
            (dayOf now - Z.of_nat (SRS.calculateStreak dayOf now words))%Z w
          = false).
Proof.
  unfold SRS.calculateStreak. split; [apply streakLoop_le|]. split.
  - intros i Hi. apply streakLoop_days in Hi.
    apply existsb_exists in Hi as (w & Hw & Hr).
    exists w. split; [by apply list_elem_of_In|done].
  - intros Hlt w Hw. apply streakLoop_gap in Hlt.
    destruct (SRS.reviewedOn dayOf _ w) eqn:Hr; [|done].
    assert (existsb
              (SRS.reviewedOn dayOf
                 (dayOf now
                  - Z.of_nat (SRS.streakLoop dayOf 365 (dayOf now) words))%Z)
              words = true) as Hex; [|congruence].
    apply existsb_exists. exists w. split; [by apply list_elem_of_In|done].
Qed.

(** X11. [generateStats] accounts for every word once: the four classes of
    the distribution add up to [totalWords], the number of words.  The
    reviews of today are at most that many, and there are none exactly when
    the streak is 0. *)
Theorem generateStats_accounts_for_every_word
    (dayOf : Z → Z) (now : Z) (words : list SRS.Word) :
  SRS.totalWords (SRS.generateStats dayOf now words) = length words
  ∧ SRS.distTotal (SRS.distribution (SRS.generateStats dayOf now words))
    = length words
  ∧ SRS.reviewsToday (SRS.generateStats dayOf now words) ≤ length words
  ∧ (SRS.reviewsToday (SRS.generateStats dayOf now words) = 0
     ↔ SRS.streakDays (SRS.generateStats dayOf now words) = 0).
Proof.
  split; [|split; [|split]].
  - unfold SRS.generateStats. by case_bool_decide.
  - unfold SRS.generateStats. case_bool_decide as Hlen.
    + by destruct words.
    + destruct (tally_fold dayOf now words SRS.noTally) as (H1 & _ & _).
      simpl in *. by rewrite H1.
  - rewrite generateStats_today. apply List.filter_length_le.
  - rewrite generateStats_today, streak_zero_iff.
    symmetry. apply existsb_filter_length.
Qed.

(** X12. The two statistics disagree on level 8: [getStatistics] counts a
    word as mastered from level 8, [generateStats] from level 9, so
    [masteredWords] is the [mastered] class plus the words at level 8. *)
Theorem masteredWords_includes_level_8
    (dayOf : Z → Z) (now : Z) (vd : SRS.VocabularyData) :
  SRS.masteredWords (SRS.getStatistics now vd)
  = SRS.mastered (SRS.distribution (SRS.generateStats dayOf now (SRS.words vd)))
    + length (List.filter (λ w, SRS.level (SRS.srsData w) =? 8)%Z (SRS.words vd)).
Proof.
  unfold SRS.getStatistics, SRS.generateStats. simpl.
  assert (∀ l : list SRS.Word,
            length (List.filter (λ w, 8 <=? SRS.level (SRS.srsData w))%Z l)
            = length (List.filter (λ w, 9 <=? SRS.level (SRS.srsData w))%Z l)
              + length (List.filter (λ w, SRS.level (SRS.srsData w) =? 8)%Z l))
    as Hsplit.
  { induction l as [|w l IH]; simpl; [done|].
    destruct (Z.leb_spec 8 (SRS.level (SRS.srsData w))),
      (Z.leb_spec 9 (SRS.level (SRS.srsData w))),
      (Z.eqb_spec (SRS.level (SRS.srsData w)) 8); simpl; lia. }
  rewrite Hsplit.
  case_bool_decide as Hlen.
  - destruct (SRS.words vd); [|done]. done.
  - destruct (tally_fold dayOf now (SRS.words vd) SRS.noTally) as (_ & _ & H3).
    simpl in *. by rewrite H3.
Qed.

(** X13. [getRecommendations] never recommends to maintain the streak: the
    rule asks for a streak of three days and no review today, and a streak
    starts with a review today.  It also never offers new words while a
    word is overdue. *)
Theorem getRecommendations_never_maintain_streak
    (dayOf : Z → Z) (weak : SRS.Word → bool) (now : Z) (words : list SRS.Word)
    (r : SRS.Recommendation) :
  r ∈ SRS.getRecommendations dayOf weak now words →
  SRS.rtype r ≠ SRS.MaintainStreak
  ∧ (SRS.rtype r = SRS.NewWords →
     ∀ w, w ∈ words → (now ≤ SRS.nextReview (SRS.srsData w))%Z).
Proof.
  unfold SRS.getRecommendations.
  assert (SRS.reviewsToday (SRS.generateStats dayOf now words) = 0
          → SRS.streakDays (SRS.generateStats dayOf now words) = 0) as Hiff.
  { rewrite generateStats_today, streak_zero_iff.
    apply existsb_filter_length. }
  rewrite !elem_of_app. intros [Hr|[Hr|[Hr|Hr]]].
  - destruct (0 <? _); [|by apply elem_of_nil in Hr].
    apply list_elem_of_singleton in Hr as ->. by split.
  - destruct (0 <? _); [|by apply elem_of_nil in Hr].
    apply list_elem_of_singleton in Hr as ->. by split.
  - destruct (10 <=? _); simpl in Hr; [|by apply elem_of_nil in Hr].
    case_bool_decide as Hov; [|by apply elem_of_nil in Hr].
    apply list_elem_of_singleton in Hr as ->. split; [done|].
    intros _ w Hw.
    destruct (Z.ltb_spec (SRS.nextReview (SRS.srsData w)) now) as [Hlt|]; [|done].
    assert (w ∈ List.filter (λ w, SRS.nextReview (SRS.srsData w) <? now)%Z words)
      as Hin.
    { apply list_elem_of_In, filter_In. split; [by apply list_elem_of_In|].
      by apply Z.ltb_lt. }
    destruct (List.filter _ words); [by apply elem_of_nil in Hin|done].
  - destruct (Nat.leb_spec 3 (SRS.streakDays (SRS.generateStats dayOf now words)))
      as [H3|]; simpl in Hr; [|by apply elem_of_nil in Hr].
    case_bool_decide as H0; [|by apply elem_of_nil in Hr].
    apply Hiff in H0. lia.
Qed.

Lemma getRecommendations_never_maintain_streak_witness :
  SRS.rtype
    {| SRS.rtype := SRS.Overdue; SRS.priority := SRS.High; SRS.number := 4;
       SRS.recWords := Some sampleDue |}
  ≠ SRS.MaintainStreak.
Proof.
  apply (getRecommendations_never_maintain_streak utcDay (λ _, false) 100
           sampleDue).
  vm_compute. constructor.
Defined.

(** X14. The session log never grows beyond 100 entries: after
    [exportSessionData] it has the old length plus one, but at most 100; it
    ends with the session just exported and keeps the most recent of the
    older ones, in order. *)
Theorem exportSessionData_keeps_last_100
    (now : Z) (sessionWords : list SRS.Word)
    (sessionResults : list SRS.SessionResult) (sessions : list SRS.StudySession) :
  let r := SRS.exportSessionData now sessionWords sessionResults sessions in
  length r.2 = Nat.min (S (length sessions)) 100
  ∧ last r.2 = Some r.1
  ∧ r.2 `suffix_of` sessions ++ [r.1]
  ∧ SRS.difficult r.1 + SRS.medium r.1 + SRS.easy r.1 ≤ length sessionResults.
Proof.
  intros r. subst r. unfold SRS.exportSessionData. cbv zeta.
  set (session := {| SRS.sessionDate := now |}).
  assert (length (sessions ++ [session]) = S (length sessions)) as Hlen.
  { rewrite length_app. simpl. lia. }
  simpl.
  split; [|split; [|split]].
  - rewrite Hlen. destruct (Nat.ltb_spec 100 (S (length sessions))).
    + rewrite length_drop, Hlen. lia.
    + rewrite Hlen. lia.
  - rewrite Hlen. destruct (Nat.ltb_spec 100 (S (length sessions))).
    + rewrite drop_app_le by lia. by rewrite last_snoc.
    + by rewrite last_snoc.
  - rewrite Hlen. destruct (Nat.ltb_spec 100 (S (length sessions))).
    + apply suffix_drop.
    + done.
  - apply countRating_total.
Qed.

(** ** Sessions *)

(** X15. The session takes the weakest words: after the call the caller's
    array is the recommended words followed by the words left out, which
    together are the words that were passed in, and no word left out comes
    before a recommended one in (level, nextReview) order. *)
Theorem suggestStudySession_recommends_weakest
    (dueWords : nat) (targetSessionLength : Z) (h : gmap nat (list SRS.Word))
    (arr : list SRS.Word) :
  h !! dueWords = Some arr →
  ∃ s h' rec rest,
    SRS.suggestStudySession dueWords targetSessionLength h = Some (s, h')
    ∧ h' !! SRS.recommended s = Some rec
    ∧ h' !! dueWords = Some (rec ++ rest)
    ∧ rec ++ rest ≡ₚ arr
    ∧ ∀ a b, a ∈ rec → b ∈ rest → SRS.keyLe a b.
Proof.
  intros Hr.
  destruct (suggestStudySession_run dueWords targetSessionLength h arr Hr)
    as (s & h' & Hrun & _ & Hdue & Hrec).
  destruct (slice0_prefix (SRS.arraySort SRS.compareWords arr)
              targetSessionLength) as [rest Hrest].
  exists s, h', (SRS.slice0 (SRS.arraySort SRS.compareWords arr)
                   targetSessionLength), rest.
  rewrite <- Hrest. repeat split; try done.
  - apply arraySort_Permutation.
  - intros a b Ha Hb.
    pose proof (arraySort_sorted arr) as Hs. rewrite Hrest in Hs.
    by eapply StronglySorted_app_1_elem_of.
Qed.

Lemma suggestStudySession_recommends_weakest_witness :
  ∃ s h' rec rest,
    SRS.suggestStudySession 0 3 sampleHeap = Some (s, h')
    ∧ h' !! SRS.recommended s = Some rec
    ∧ h' !! 0 = Some (rec ++ rest)
    ∧ rec ++ rest ≡ₚ sampleDue
    ∧ ∀ a b, a ∈ rec → b ∈ rest → SRS.keyLe a b.
Proof.
  apply (suggestStudySession_recommends_weakest 0 3 sampleHeap sampleDue).
  reflexivity.
Defined.

(** X16. What a session reports.  For an empty array: no words, no total,
    and the caller's array is left alone.  Otherwise [totalDue] is the
    number of due words and the message counts the recommended words: the
    smaller of target and number of words for a target that is not
    negative, and for a negative target the number of words less its
    amount (the last words are dropped); words beyond the target are
    announced as also due. *)
Theorem suggestStudySession_reports
    (dueWords : nat) (targetSessionLength : Z) (h : gmap nat (list SRS.Word))
    (arr : list SRS.Word) :
  h !! dueWords = Some arr →
  ∃ s h' rec,
    SRS.suggestStudySession dueWords targetSessionLength h = Some (s, h')
    ∧ h' !! SRS.recommended s = Some rec
    ∧ match arr with
      | [] =>
          rec = [] ∧ SRS.totalDue s = None ∧ SRS.message s = SRS.NothingDue
      | _ =>
          SRS.totalDue s = Some (length arr)
          ∧ Z.of_nat (length rec)
            = (if targetSessionLength <? 0
               then Z.max (Z.of_nat (length arr) + targetSessionLength) 0
               else Z.min targetSessionLength (Z.of_nat (length arr)))%Z
          ∧ SRS.message s
            = SRS.Ready (length rec)
                (if (Z.of_nat (length arr) >? targetSessionLength)%Z
                 then Some (Z.of_nat (length arr) - targetSessionLength)%Z
                 else None)
      end.
Proof.
  intros Hr. destruct arr as [|w arr0].
  - unfold SRS.suggestStudySession. rewrite Hr. simpl.
    eexists _, _, _. split; [done|]. simpl.
    by rewrite lookup_insert_eq.
  - cbv beta iota. remember (w :: arr0) as arr eqn:Harr.
    unfold SRS.suggestStudySession. rewrite Hr. simpl.
    case_bool_decide as Hlen; [by subst arr|].
    eexists _, _, _. split; [done|]. simpl.
    rewrite lookup_insert_eq. split; [done|].
    rewrite (arraySort_length SRS.compareWords arr).
    split; [done|]. split; [|done].
    unfold SRS.slice0. rewrite length_take, arraySort_length.
    destruct (Z.ltb_spec targetSessionLength 0); lia.
Qed.

Lemma suggestStudySession_reports_witness :
  ∃ s h' rec,
    SRS.suggestStudySession 0 (-1) sampleHeap = Some (s, h')
    ∧ h' !! SRS.recommended s = Some rec
    ∧ SRS.totalDue s = Some 4
    ∧ Z.of_nat (length rec) = 3%Z
    ∧ SRS.message s = SRS.Ready (length rec) (Some 5%Z).
Proof.
  destruct (suggestStudySession_reports 0 (-1) sampleHeap sampleDue eq_refl)
    as (s & h' & rec & H1 & H2 & H3 & H4 & H5).
  exists s, h', rec. repeat split; done.
Defined.

(** ** The client, further *)

Section ClientFacts.
Import TTS.
Variable toLowerCase : jsstring → jsstring.
Variable net : Network.

Lemma getAudioUrl_client c h text force :
  let r := getAudioUrl toLowerCase net text force
             {| client := c; history := h |} in
  (∀ url, r.1 = Return url →
     cache (client r.2) !! Client.generateTextKey toLowerCase text = Some url)
  ∧ serverUrl (client r.2) = serverUrl c
  ∧ fallbackUrl (client r.2) = fallbackUrl c
  ∧ (∀ k, k ≠ Client.generateTextKey toLowerCase text →
          cache (client r.2) !! k = cache c !! k).
Proof.
  intros r. subst r. rewrite getAudioUrl_run. cbv zeta.
  destruct (if force then None else cache c !! _) as [u|] eqn:Hm.
  { simpl. destruct force; [done|]. repeat split; try done.
    by intros url [= <-]. }
  destruct (genUrl (generate net h _ _ _)) as [u1|].
  { simpl. repeat split; try done.
    - intros url [= <-]. by rewrite lookup_insert_eq.
    - intros k Hk. by rewrite lookup_insert_ne. }
  destruct (genUrl (generate net (h ++ _) _ _ _)) as [u2|].
  { simpl. repeat split; try done.
    - intros url [= <-]. by rewrite lookup_insert_eq.
    - intros k Hk. by rewrite lookup_insert_ne. }
  simpl. repeat split; done.
Qed.

Lemma viaServers_client c h text force :
  let c' := client (viaServers toLowerCase net c h text force).2 in
  serverUrl c' = serverUrl c
  ∧ fallbackUrl c' = fallbackUrl c
  ∧ (∀ k, k ≠ Client.generateTextKey toLowerCase text →
          cache c' !! k = cache c !! k).
Proof.
  unfold viaServers.
  pose proof (getAudioUrl_client c h text force) as (_ & H1 & H2 & H3).
  destruct (getAudioUrl toLowerCase net text force _) as [[url|e] s]; done.
Qed.

Lemma foldl_memoise_other (files : list AudioFile)
    (m : gmap jsstring jsstring) k :
  Forall (λ f, fileKey f ≠ k) files →
  foldl (λ m f, <[fileKey f := fileUrl f]> m) m files !! k = m !! k.
Proof.
  intros Hf. revert m. induction Hf as [|f files Hk _ IH]; intros m; simpl.
  - done.
  - rewrite IH. by rewrite lookup_insert_ne.
Qed.

Lemma foldl_memoise_last (files : list AudioFile)
    (m : gmap jsstring jsstring) pre file post :
  files = pre ++ file :: post →
  Forall (λ f, fileKey f ≠ fileKey file) post →
  foldl (λ m f, <[fileKey f := fileUrl f]> m) m files !! fileKey file
  = Some (fileUrl file).
Proof.
  intros -> Hpost. rewrite foldl_app. simpl.
  rewrite foldl_memoise_other by done. by rewrite lookup_insert_eq.
Qed.
End ClientFacts.

(** X17. Resolving the same text twice asks the servers once: if
    [getAudioUrl] (forced or not) returns a URL, every later unforced call
    for that text on the same client returns the same URL at once, without
    a request and without changing the client. *)
Theorem getAudioUrl_repeat_is_answered_from_memo
    (toLowerCase : jsstring → jsstring) (net net' : TTS.Network)
    (c : TTS.Client) (h h' : list TTS.Event) (text url : jsstring)
    (force : bool) :
  (TTS.run (TTS.getAudioUrl toLowerCase net text force) c h).1 = Return url →
  TTS.run (TTS.getAudioUrl toLowerCase net' text false)
    (TTS.client (TTS.run (TTS.getAudioUrl toLowerCase net text force) c h).2) h'
  = (Return url,
     {| TTS.client :=
          TTS.client (TTS.run (TTS.getAudioUrl toLowerCase net text force) c h).2;
        TTS.history := h' |}).
Proof.
  intros Hr. unfold TTS.run in *.
  destruct (getAudioUrl_client toLowerCase net c h text force) as (Hm & _).
  specialize (Hm url Hr).
  rewrite getAudioUrl_run. by rewrite Hm.
Qed.

Lemma getAudioUrl_repeat_is_answered_from_memo_witness :
  TTS.run (TTS.getAudioUrl toLowerCaseLatin deadNetwork (units "Labas") false)
    (TTS.client
       (TTS.run (TTS.getAudioUrl toLowerCaseLatin (servingNetwork true)
                   (units "Labas") true) localClient []).2) []
  = (Return labasUrl,
     {| TTS.client :=
          TTS.client
            (TTS.run (TTS.getAudioUrl toLowerCaseLatin (servingNetwork true)
                        (units "Labas") true) localClient []).2;
        TTS.history := [] |}).
Proof.
  apply (getAudioUrl_repeat_is_answered_from_memo toLowerCaseLatin
           (servingNetwork true) deadNetwork localClient [] []
           (units "Labas") labasUrl true).
  vm_compute. reflexivity.
Defined.

(** X18. A forced [getAudioUrl] does not look at the memo: whatever is
    memoised, its first action is a synthesis request to the TTS server
    with the force flag set. *)
Theorem getAudioUrl_forced_bypasses_memo
    (toLowerCase : jsstring → jsstring) (net : TTS.Network)
    (c : TTS.Client) (h : list TTS.Event) (text : jsstring) :
  ∃ rest,
    TTS.history (TTS.run (TTS.getAudioUrl toLowerCase net text true) c h).2
    = h ++ TTS.EvGenerate (TTS.serverUrl c) text true :: rest.
Proof.
  unfold TTS.run. rewrite getAudioUrl_run. cbv zeta.
  destruct (TTS.genUrl (TTS.generate net h _ _ _));
    [|destruct (TTS.genUrl (TTS.generate net (h ++ _) _ _ _))];
    simpl; rewrite <- ?app_assoc; eexists; reflexivity.
Qed.

(** X19. When [getAudioUrl] fails, it has asked the TTS server and then
    the fallback server once each, the error is the one that says all
    servers are unavailable, and the client (memo and fallback flag) is as
    before. *)
Theorem getAudioUrl_failure_leaves_client_unchanged
    (toLowerCase : jsstring → jsstring) (net : TTS.Network)
    (c : TTS.Client) (h : list TTS.Event) (text : jsstring) (force : bool)
    (e : TTS.Error) :
  (TTS.run (TTS.getAudioUrl toLowerCase net text force) c h).1 = Throw e →
  e = TTS.AllServersUnavailable
  ∧ (TTS.run (TTS.getAudioUrl toLowerCase net text force) c h).2
    = {| TTS.client := c;
         TTS.history :=
           h ++ [TTS.EvGenerate (TTS.serverUrl c) text force;
                 TTS.EvGenerate (TTS.fallbackUrl c) text force] |}.
Proof.
  unfold TTS.run. rewrite getAudioUrl_run. cbv zeta.
  destruct (if force then None else TTS.cache c !! _); [done|].
  destruct (TTS.genUrl (TTS.generate net h _ _ _)); [done|].
  destruct (TTS.genUrl (TTS.generate net (h ++ _) _ _ _)); [done|].
  simpl. intros [= <-]. by rewrite <- app_assoc.
Qed.

Lemma getAudioUrl_failure_leaves_client_unchanged_witness :
  (TTS.run (TTS.getAudioUrl toLowerCaseLatin deadNetwork (units "Labas") false)
     localClient []).2
  = {| TTS.client := localClient;
       TTS.history :=
         [TTS.EvGenerate (units "http://localhost:3001") (units "Labas") false;
          TTS.EvGenerate (units "http://localhost:8080") (units "Labas") false] |}.
Proof.
  apply (getAudioUrl_failure_leaves_client_unchanged toLowerCaseLatin
           deadNetwork localClient [] (units "Labas") false
           TTS.AllServersUnavailable).
  vm_compute. reflexivity.
Defined.

(** X20. What [speak] does to the client: the two server URLs stay, and
    the memo changes at most at the key of the spoken text.  When an
    existence probe finds the file, the client is not changed at all: a
    URL found by a probe is played but not memoised. *)
Theorem speak_memoises_only_its_key
    (toLowerCase : jsstring → jsstring) (net : TTS.Network)
    (c : TTS.Client) (h : list TTS.Event) (text : jsstring) (force : bool) :
  TTS.serverUrl (TTS.client (TTS.run (TTS.speak toLowerCase net text force) c h).2)
  = TTS.serverUrl c
  ∧ TTS.fallbackUrl
      (TTS.client (TTS.run (TTS.speak toLowerCase net text force) c h).2)
    = TTS.fallbackUrl c
  ∧ (∀ k, k ≠ Client.generateTextKey toLowerCase text →
          TTS.cache
            (TTS.client (TTS.run (TTS.speak toLowerCase net text force) c h).2)
            !! k
          = TTS.cache c !! k)
  ∧ (force = false →
     TTS.head net h (TTS.ttsUrlOf toLowerCase c text) = TTS.HeadOk
     ∨ TTS.head net (h ++ [TTS.EvHead (TTS.ttsUrlOf toLowerCase c text)])
         (TTS.cacheUrlOf toLowerCase c text) = TTS.HeadOk →
     TTS.client (TTS.run (TTS.speak toLowerCase net text force) c h).2 = c).
Proof.
  unfold TTS.run. rewrite speak_run.
  pose proof (λ h0, viaServers_client toLowerCase net c h0 text force) as Hv.
  destruct force.
  { destruct (Hv h) as (H1 & H2 & H3). repeat split; done. }
  destruct (TTS.head net h _) eqn:Hh1.
  { repeat split; done. }
  all: destruct (TTS.head net (h ++ _) _) eqn:Hh2.
  all: try (repeat split; done).
  all: destruct (Hv ((h ++ [TTS.EvHead (TTS.ttsUrlOf toLowerCase c text)])
                       ++ [TTS.EvHead (TTS.cacheUrlOf toLowerCase c text)]))
         as (H1 & H2 & H3).
  all: repeat split; try done.
  all: by intros _ [?|?].
Qed.

Lemma speak_memoises_only_its_key_witness :
  TTS.client
    (TTS.run (TTS.speak toLowerCaseLatin (servingNetwork true) (units "Labas")
                false) localClient []).2
  = localClient.
Proof.
  destruct (speak_memoises_only_its_key toLowerCaseLatin (servingNetwork true)
              localClient [] (units "Labas") false) as (_ & _ & _ & H).
  apply H; [reflexivity|]. left. reflexivity.
Defined.

(** X21. [generateBatch] memoises what the server lists and nothing else:
    on a successful answer it returns the listed files, each key of the
    list is memoised with the URL of its last entry, and keys that are not
    listed keep what they had; on any other answer it throws and the client
    is unchanged. *)
Theorem generateBatch_memoises_listed_files
    (batchAnswer : jsstring → list jsstring → TTS.BatchResponse)
    (texts : list jsstring) (c : TTS.Client) :
  match batchAnswer (TTS.serverUrl c ++ units "/tts/batch") texts with
  | TTS.BatchJson true _ (Some files) =>
      (TTS.generateBatch batchAnswer texts c).1 = Return files
      ∧ (∀ pre file post,
           files = pre ++ file :: post →
           Forall (λ f, TTS.fileKey f ≠ TTS.fileKey file) post →
           TTS.cache (TTS.generateBatch batchAnswer texts c).2
             !! TTS.fileKey file = Some (TTS.fileUrl file))
      ∧ (∀ k, Forall (λ f, TTS.fileKey f ≠ k) files →
              TTS.cache (TTS.generateBatch batchAnswer texts c).2 !! k
              = TTS.cache c !! k)
  | _ =>
      (∃ e, (TTS.generateBatch batchAnswer texts c).1 = Throw e)
      ∧ (TTS.generateBatch batchAnswer texts c).2 = c
  end.
Proof.
  unfold TTS.generateBatch.
  destruct (batchAnswer _ texts) as [|status| |ok error files];
    try (split; [eexists; reflexivity|reflexivity]).
  destruct ok; [|split; [eexists; reflexivity|reflexivity]].
  destruct files as [files|]; [|split; [eexists; reflexivity|reflexivity]].
  simpl. split; [done|]. split.
  - intros pre file post Hf Hpost. by eapply foldl_memoise_last.
  - intros k Hk. by apply foldl_memoise_other.
Qed.

(** ** The server, further *)

Section ServerFacts.
Import Batch.
Variable toLowerCase : jsstring → jsstring.
Variable synthesize : list Event → jsstring → bool.

Abbreviation keyOf' text := (GetSound.generateTextKey toLowerCase text).
Abbreviation fileOf' text := (keyOf' text ++ units ".mp3").

(** The disk after the audio of [text] was written and indexed. *)
Lemma quickStart_cases d h text force :
  text ≠ [] →
  quickStart toLowerCase synthesize text force {| disk := d; history := h |}
  = if negb force && isCached toLowerCase d text then
      (Return (fileOf' text), {| disk := d; history := h |})
    else if synthesize h text then
      (Return (fileOf' text),
       {| disk :=
            {| index := <[keyOf' text :=
                            {| originalText := text;
                               filename := fileOf' text |}]> (index d);
               files := {[fileOf' text]} ∪ files d |};
          history := h ++ [EvSynthesize text] |})
    else
      (Throw SynthesisFailed,
       {| disk := d; history := h ++ [EvSynthesize text] |}).
Proof.
  intros Hne. unfold quickStart, isCached.
  destruct text as [|u text]; [done|].
  cbv [bind loadAudioCache existsSync get ret disk].
  rewrite <- andb_assoc.
  destruct (negb force && _); [done|].
  cbv [synthesizeSpeech writeFile saveAudioCache bind get put ret throw
       disk history index files].
  by destruct (synthesize h (u :: text)).
Qed.

Lemma quickStart_file d h text force name s' :
  text ≠ [] →
  quickStart toLowerCase synthesize text force {| disk := d; history := h |}
  = (Return name, s') →
  name = fileOf' text ∧ name ∈ files (disk s').
Proof.
  intros Hne. rewrite quickStart_cases by done.
  destruct (negb force && isCached toLowerCase d text) eqn:Hc.
  - intros [= <- <-]. split; [done|]. simpl.
    apply andb_true_iff in Hc as [_ Hc]. unfold isCached in Hc.
    apply andb_true_iff in Hc as [_ Hc]. by apply bool_decide_eq_true in Hc.
  - destruct (synthesize h text); [|done].
    intros [= <- <-]. split; [done|]. simpl. set_solver.
Qed.

Lemma generateAll_never_throws items s :
  (generateAll toLowerCase synthesize items s).1 = Return ().
Proof.
  revert s. induction items as [|text items IH]; intros s; [done|].
  simpl. cbv [bind tryCatch].
  destruct (quickStart toLowerCase synthesize text false s) as [[name|e] s'];
    cbv [ret]; apply IH.
Qed.

Lemma quickStart_failing_keeps_disk text force s :
  (∀ h t, synthesize h t = false) →
  disk (quickStart toLowerCase synthesize text force s).2 = disk s.
Proof.
  intros Hfail. destruct s as [d h].
  assert (∀ t, t ≠ [] →
            disk (quickStart toLowerCase synthesize t force
                    {| disk := d; history := h |}).2 = d) as Hq.
  { intros t Ht. rewrite quickStart_cases by done.
    destruct (negb force && _); [done|]. by rewrite Hfail. }
  destruct text as [|u text].
  - apply (Hq defaultText). discriminate.
  - by apply Hq.
Qed.

Lemma generateAll_failing_keeps_disk items s :
  (∀ h t, synthesize h t = false) →
  disk (generateAll toLowerCase synthesize items s).2 = disk s.
Proof.
  intros Hfail. revert s. induction items as [|text items IH]; intros s; [done|].
  simpl. cbv [bind tryCatch].
  pose proof (quickStart_failing_keeps_disk text false s Hfail) as Hq.
  destruct (quickStart toLowerCase synthesize text false s) as [[name|e] s'];
    cbv [ret]; rewrite IH; exact Hq.
Qed.

Lemma partition_lengths (p : jsstring → bool) l :
  length (List.filter p l) + length (List.filter (λ x, negb (p x)) l) = length l.
Proof.
  induction l as [|x l IH]; simpl; [done|].
  destruct (p x); simpl; lia.
Qed.
End ServerFacts.

Lemma ttsGenerate_ok
    (toLowerCase : jsstring → jsstring)
    (synthesize : list Batch.Event → jsstring → bool) (port : jsstring)
    (text force : option jsstring) (s : Batch.State) (body : Server.GenerateBody) :
  (Server.ttsGenerate toLowerCase synthesize port text force s).1
  = Return (Server.Ok body) →
  Server.bodyCached body = negb (bool_decide (force = Some (units "true")))
  ∧ Server.bodyFilename body = Server.bodyKey body ++ units ".mp3"
  ∧ Server.bodyAudioUrl body = Server.urlOf port (Server.bodyFilename body)
  ∧ Server.bodyFilename body
    ∈ Batch.files
        (Batch.disk
           (Server.ttsGenerate toLowerCase synthesize port text force s).2).
Proof.
  unfold Server.ttsGenerate. destruct text as [[|u text]|]; try done.
  destruct s as [d h].
  cbv [tryCatch bind Batch.existsSync get ret Batch.disk].
  destruct (bool_decide (force = Some (units "true"))) eqn:Hf; simpl.
  - pose proof (quickStart_file toLowerCase synthesize d h (u :: text) true)
      as Hq.
    destruct (Batch.quickStart _ _ _ _ _) as [[name|e] s'] eqn:Hqs; [|done].
    destruct (Hq name s' ltac:(done) eq_refl) as [-> Hin].
    simpl. intros [= <-]. simpl. repeat split; done.
  - destruct (bool_decide (_ ∈ Batch.files d)) eqn:Hp; simpl.
    + intros [= <-]. simpl. apply bool_decide_eq_true in Hp.
      repeat split; done.
    + pose proof (quickStart_file toLowerCase synthesize d h (u :: text) false)
        as Hq.
      destruct (Batch.quickStart _ _ _ _ _) as [[name|e] s'] eqn:Hqs; [|done].
      destruct (Hq name s' ltac:(done) eq_refl) as [-> Hin].
      simpl. intros [= <-]. simpl.
      repeat split; try done. by rewrite bool_decide_eq_true_2.
Qed.

(** X22. The [cached] flag of [GET /tts/generate] only mirrors the force
    parameter: every successful answer has [cached] true unless
    [force=true] was sent, also when the audio was synthesised for this
    very request.  The file that a successful answer names exists when the
    answer is sent, and its URL is the one of that file on this server. *)
Theorem ttsGenerate_cached_flag_mirrors_force
    (toLowerCase : jsstring → jsstring)
    (synthesize : list Batch.Event → jsstring → bool) (port : jsstring)
    (text force : option jsstring) (s : Batch.State) (body : Server.GenerateBody) :
  (Server.ttsGenerate toLowerCase synthesize port text force s).1
  = Return (Server.Ok body) →
  Server.bodyCached body = negb (bool_decide (force = Some (units "true")))
  ∧ Server.bodyFilename body = Server.bodyKey body ++ units ".mp3"
  ∧ Server.bodyAudioUrl body = Server.urlOf port (Server.bodyFilename body)
  ∧ Server.bodyFilename body
    ∈ Batch.files
        (Batch.disk
           (Server.ttsGenerate toLowerCase synthesize port text force s).2).
Proof. apply ttsGenerate_ok. Qed.

Lemma ttsGenerate_cached_flag_mirrors_force_witness :
  Server.bodyCached
    {| Server.bodyText := units "Labas"; Server.bodyKey := units "labas";
       Server.bodyFilename := units "labas.mp3";
       Server.bodyAudioUrl := labasUrl; Server.bodyCached := true |}
  = negb (bool_decide (None = Some (units "true")))
  ∧ Batch.history
      (Server.ttsGenerate toLowerCaseLatin alwaysSynthesize (units "3001")
         (Some (units "Labas")) None freshServer).2
    = [Batch.EvSynthesize (units "Labas")].
Proof.
  split.
  - apply (ttsGenerate_cached_flag_mirrors_force toLowerCaseLatin
             alwaysSynthesize (units "3001") (Some (units "Labas")) None
             freshServer).
    vm_compute. reflexivity.
  - vm_compute. reflexivity.
Defined.

(** X23. An unforced request for a text whose audio file exists is
    answered from the file: nothing is synthesised and the cache directory
    is not touched, whether or not the index has an entry for it. *)
Theorem ttsGenerate_serves_existing_file
    (toLowerCase : jsstring → jsstring)
    (synthesize : list Batch.Event → jsstring → bool) (port : jsstring)
    (text : jsstring) (force : option jsstring) (s : Batch.State) :
  text ≠ [] →
  force ≠ Some (units "true") →
  GetSound.generateTextKey toLowerCase text ++ units ".mp3"
    ∈ Batch.files (Batch.disk s) →
  Server.ttsGenerate toLowerCase synthesize port (Some text) force s
  = (Return
       (Server.Ok
          {| Server.bodyText := text;
             Server.bodyKey := GetSound.generateTextKey toLowerCase text;
             Server.bodyFilename :=
               GetSound.generateTextKey toLowerCase text ++ units ".mp3";
             Server.bodyAudioUrl :=
               Server.urlOf port
                 (GetSound.generateTextKey toLowerCase text ++ units ".mp3");
             Server.bodyCached := true |}),
     s).
Proof.
  intros Hne Hf Hin. unfold Server.ttsGenerate.
  destruct text as [|u text]; [done|]. destruct s as [d h].
  cbv [tryCatch bind Batch.existsSync get ret Batch.disk].
  rewrite (bool_decide_eq_false_2 _ Hf). simpl in Hin.
  by rewrite (bool_decide_eq_true_2 _ Hin).
Qed.

Lemma ttsGenerate_serves_existing_file_witness :
  Server.ttsGenerate toLowerCaseLatin alwaysSynthesize (units "3001")
    (Some (units "Labas!")) (Some (units "false"))
    {| Batch.disk := {| Batch.index := ∅;
                        Batch.files := {[ units "labas.mp3" ]} |};
       Batch.history := [] |}
  = (Return
       (Server.Ok
          {| Server.bodyText := units "Labas!";
             Server.bodyKey :=
               GetSound.generateTextKey toLowerCaseLatin (units "Labas!");
             Server.bodyFilename :=
               GetSound.generateTextKey toLowerCaseLatin (units "Labas!")
               ++ units ".mp3";
             Server.bodyAudioUrl :=
               Server.urlOf (units "3001")
                 (GetSound.generateTextKey toLowerCaseLatin (units "Labas!")
                  ++ units ".mp3");
             Server.bodyCached := true |}),
     {| Batch.disk := {| Batch.index := ∅;
                         Batch.files := {[ units "labas.mp3" ]} |};
        Batch.history := [] |}).
Proof.
  apply ttsGenerate_serves_existing_file.
  - discriminate.
  - discriminate.
  - vm_compute. set_solver.
Defined.

(** X24. A synthesis that fails leaves no trace in the cache directory:
    when the request has to synthesise (it is forced, or the file does not
    exist) and the backend rejects, the answer is the server error and
    index and files are as before. *)
Theorem ttsGenerate_failed_synthesis_writes_nothing
    (toLowerCase : jsstring → jsstring)
    (synthesize : list Batch.Event → jsstring → bool) (port : jsstring)
    (text : jsstring) (force : option jsstring) (s : Batch.State) :
  text ≠ [] →
  force = Some (units "true")
  ∨ GetSound.generateTextKey toLowerCase text ++ units ".mp3"
      ∉ Batch.files (Batch.disk s) →
  synthesize (Batch.history s) text = false →
  Server.ttsGenerate toLowerCase synthesize port (Some text) force s
  = (Return Server.ServerError,
     {| Batch.disk := Batch.disk s;
        Batch.history := Batch.history s ++ [Batch.EvSynthesize text] |}).
Proof.
  intros Hne Hmust Hfail. unfold Server.ttsGenerate.
  destruct text as [|u text]; [done|]. destruct s as [d h].
  cbv [Batch.disk Batch.history] in Hmust, Hfail.
  cbv [tryCatch bind Batch.existsSync get ret Batch.disk Batch.history].
  destruct (bool_decide (force = Some (units "true"))) eqn:Hf.
  - cbv [negb andb]. rewrite quickStart_cases by done.
    cbv [negb andb]. by rewrite Hfail.
  - apply bool_decide_eq_false in Hf. destruct Hmust as [|Hnot]; [done|].
    rewrite (bool_decide_eq_false_2 _ Hnot). cbv [negb andb].
    rewrite quickStart_cases by done.
    unfold Batch.isCached. cbv [Batch.files].
    rewrite (bool_decide_eq_false_2 _ Hnot). rewrite andb_false_r.
    cbv [negb andb]. by rewrite Hfail.
Qed.

Lemma ttsGenerate_failed_synthesis_writes_nothing_witness :
  Server.ttsGenerate toLowerCaseLatin (λ _ _, false) (units "3001")
    (Some (units "Labas")) (Some (units "true"))
    {| Batch.disk := labasDisk; Batch.history := [] |}
  = (Return Server.ServerError,
     {| Batch.disk := labasDisk;
        Batch.history := [] ++ [Batch.EvSynthesize (units "Labas")] |}).
Proof.
  apply (ttsGenerate_failed_synthesis_writes_nothing toLowerCaseLatin
           (λ _ _, false) (units "3001") (units "Labas")
           (Some (units "true")) {| Batch.disk := labasDisk; Batch.history := [] |}).
  - discriminate.
  - left. reflexivity.
  - reflexivity.
Defined.

(** X25. [POST /tts/batch] with a list of texts always answers with
    success, whatever the synthesis backend does: one file entry per text,
    in order, with the key and URL derived from the text, and counts that
    add up to the number of texts.  With a backend that rejects every
    request nothing is written, and the answer still lists a URL for every
    text. *)
Theorem ttsBatch_always_reports_success
    (toLowerCase : jsstring → jsstring)
    (synthesize : list Batch.Event → jsstring → bool) (port : jsstring)
    (texts : list jsstring) (s : Batch.State) :
  ∃ result,
    (Server.ttsBatch toLowerCase synthesize port (Some texts) s).1
    = Return (Server.Ok
                {| Server.bodyResult := result;
                   Server.bodyAudioFiles :=
                     Server.audioFileOf toLowerCase port <$> texts |})
    ∧ Batch.total result = length texts
    ∧ Batch.cached result + Batch.generated result = length texts
    ∧ ((∀ h t, synthesize h t = false) →
       Batch.disk (Server.ttsBatch toLowerCase synthesize port (Some texts) s).2
       = Batch.disk s).
Proof.
  unfold Server.ttsBatch, Batch.generateVocabularyAudio.
  cbv [tryCatch bind get].
  set (new := List.filter _ texts).
  pose proof (generateAll_never_throws toLowerCase synthesize new s) as Hret.
  pose proof (generateAll_failing_keeps_disk toLowerCase synthesize new s) as Hd.
  destruct (Batch.generateAll toLowerCase synthesize new s) as [r s'].
  simpl in Hret. subst r. cbv [ret]. simpl.
  eexists. split; [reflexivity|]. simpl.
  split; [done|]. split; [apply partition_lengths|done].
Qed.

(** ** Client and server together *)

Section TogetherFacts.
Variable toLowerCase : jsstring → jsstring.
Variable port : jsstring.

Lemma foldl_memoise_texts (texts : list jsstring) (m : gmap jsstring jsstring)
    (text : jsstring) :
  m !! GetSound.generateTextKey toLowerCase text
    = Some (Server.urlOf port
              (GetSound.generateTextKey toLowerCase text ++ units ".mp3"))
  ∨ text ∈ texts →
  foldl (λ m f, <[TTS.fileKey f := TTS.fileUrl f]> m) m
    (Server.audioFileOf toLowerCase port <$> texts)
    !! GetSound.generateTextKey toLowerCase text
  = Some (Server.urlOf port
            (GetSound.generateTextKey toLowerCase text ++ units ".mp3")).
Proof.
  revert m. induction texts as [|t texts IH]; intros m [Hm|Hin]; simpl.
  - done.
  - by apply elem_of_nil in Hin.
  - apply IH. left.
    destruct (decide (GetSound.generateTextKey toLowerCase t
                      = GetSound.generateTextKey toLowerCase text)) as [He|Hne].
    + rewrite He. by rewrite lookup_insert_eq.
    + by rewrite lookup_insert_ne.
  - apply IH. apply elem_of_cons in Hin as [->|Hin]; [left|by right].
    by rewrite lookup_insert_eq.
Qed.
End TogetherFacts.

(** X26. After a batch, pronunciation needs no request.  The TTS server
    answers [POST /tts/batch] with one file per text, [generateBatch]
    memoises them under the keys the server derived, and these are the keys
    the client derives: [getAudioUrl] for any text of the batch then
    returns the URL of its file on the TTS server without any request. *)
Theorem batch_then_getAudioUrl_needs_no_request
    (toLowerCase : jsstring → jsstring)
    (synthesize : list Batch.Event → jsstring → bool) (port : jsstring)
    (net : TTS.Network) (texts : list jsstring) (s : Batch.State)
    (c : TTS.Client) (h : list TTS.Event) (text : jsstring) :
  text ∈ texts →
  ∃ answer,
    (Server.ttsBatch toLowerCase synthesize port (Some texts) s).1
    = Return answer
    ∧ TTS.run (TTS.getAudioUrl toLowerCase net text false)
        (TTS.generateBatch (λ _ _, Server.batchAnswerOf answer) texts c).2 h
      = (Return (Server.urlOf port
                   (Client.generateTextKey toLowerCase text ++ units ".mp3")),
         {| TTS.client :=
              (TTS.generateBatch (λ _ _, Server.batchAnswerOf answer) texts c).2;
            TTS.history := h |}).
Proof.
  intros Hin.
  unfold Server.ttsBatch, Batch.generateVocabularyAudio.
  cbv [tryCatch bind get].
  set (new := List.filter _ texts).
  pose proof (generateAll_never_throws toLowerCase synthesize new s) as Hret.
  destruct (Batch.generateAll toLowerCase synthesize new s) as [r s'].
  simpl in Hret. subst r. cbv [ret]. simpl.
  eexists. split; [reflexivity|].
  unfold TTS.run. rewrite getAudioUrl_run.
  unfold TTS.generateBatch, Server.batchAnswerOf. simpl.
  change (Client.generateTextKey toLowerCase text)
    with (GetSound.generateTextKey toLowerCase text).
  rewrite foldl_memoise_texts by (by right). done.
Qed.

Lemma batch_then_getAudioUrl_needs_no_request_witness :
  ∃ answer,
    (Server.ttsBatch toLowerCaseLatin (λ _ _, false) (units "3001")
       (Some [units "Labas"; units "Kaip sekasi?"]) freshServer).1
    = Return answer
    ∧ TTS.run (TTS.getAudioUrl toLowerCaseLatin deadNetwork (units "Labas") false)
        (TTS.generateBatch (λ _ _, Server.batchAnswerOf answer)
           [units "Labas"; units "Kaip sekasi?"] localClient).2 []
      = (Return (Server.urlOf (units "3001")
                   (Client.generateTextKey toLowerCaseLatin (units "Labas")
                    ++ units ".mp3")),
         {| TTS.client :=
              (TTS.generateBatch (λ _ _, Server.batchAnswerOf answer)
                 [units "Labas"; units "Kaip sekasi?"] localClient).2;
            TTS.history := [] |}).
Proof.
  apply (batch_then_getAudioUrl_needs_no_request toLowerCaseLatin (λ _ _, false)
           (units "3001") deadNetwork [units "Labas"; units "Kaip sekasi?"]
           freshServer localClient [] (units "Labas")).
  apply list_elem_of_here.
Defined.



(** ** The audio manager, further *)

Section ManagerFacts.
Import AudioManager.
Local Open Scope Z_scope.

Lemma btoa_outside_latin1 text u :
  u ∈ text → (255 < u)%N → btoa text = None.
Proof.
  intros Hin Hu. unfold btoa.
  assert (forallb (λ c, (c <=? 255)%N) text = false) as ->; [|done].
  induction text as [|x text IH]; [by apply elem_of_nil in Hin|].
  simpl. apply elem_of_cons in Hin as [<-|Hin].
  - by rewrite (proj2 (N.leb_gt _ _) Hu).
  - rewrite IH by done. apply andb_false_r.
Qed.

Lemma getCacheKey_any_state text language k s s' :
  getCacheKey text language s = (Return k, s) →
  getCacheKey text language s' = (Return k, s').
Proof.
  unfold getCacheKey. destruct (btoa text); [|done].
  cbv [ret]. intros Heq. by simplify_eq.
Qed.
End ManagerFacts.

(** X28. [EnhancedAudioManager.speak] rejects every text that has a
    character outside Latin-1 (every Lithuanian diacritic is one): the
    cache key is computed with [btoa], which throws; no provider is asked
    and nothing changes. *)
Theorem manager_speak_rejects_text_outside_latin1
    (providers : AudioManager.Providers) (text language : jsstring) (u : N)
    (s : AudioManager.State) :
  AudioManager.isBlank text = false →
  u ∈ text →
  (255 < u)%N →
  AudioManager.speak providers text language s
  = (Throw AudioManager.InvalidCharacter, s).
Proof.
  intros Hb Hin Hu. unfold AudioManager.speak. rewrite Hb.
  cbv [bind AudioManager.getCacheKey].
  by rewrite (btoa_outside_latin1 text u Hin Hu).
Qed.

Lemma manager_speak_rejects_text_outside_latin1_witness :
  AudioManager.speak noProviders (units "a" ++ [269%N] ++ units "i" ++ [363%N])
    (units "lithuanian") nextDayManager
  = (Throw AudioManager.InvalidCharacter, nextDayManager).
Proof.
  apply (manager_speak_rejects_text_outside_latin1 noProviders
           (units "a" ++ [269%N] ++ units "i" ++ [363%N]) (units "lithuanian")
           269%N nextDayManager).
  - reflexivity.
  - vm_compute. apply list_elem_of_further, list_elem_of_here.
  - reflexivity.
Defined.

(** X29. What the current provider has spoken is answered from the cache
    afterwards: when caching is on, the expiry is positive, the key is not
    cached and the provider resolves, [speak] returns [true] after one
    request to the provider, and a second [speak] of the same text right
    after it returns [true] without asking any provider and without
    changing anything. *)
Theorem manager_speak_repeat_is_answered_from_cache
    (providers later : AudioManager.Providers) (p : AudioManager.Provider)
    (text language k : jsstring) (elapsed : Z) (s : AudioManager.State) :
  AudioManager.isBlank text = false →
  AudioManager.getCacheKey text language s = (Return k, s) →
  AudioManager.enableCaching (AudioManager.manager s) = true →
  (0 < AudioManager.cacheExpiry (AudioManager.manager s))%Z →
  AudioManager.cache (AudioManager.manager s) !! k = None →
  AudioManager.current providers = Some p →
  AudioManager.isAvailable p = true →
  AudioManager.speakOutcome p (AudioManager.history s) text language
  = (true, elapsed) →
  (AudioManager.speak providers text language s).1 = Return true
  ∧ AudioManager.history (AudioManager.speak providers text language s).2
    = AudioManager.history s ++ [AudioManager.EvProviderSpeak text language]
  ∧ AudioManager.speak later text language
      (AudioManager.speak providers text language s).2
    = (Return true, (AudioManager.speak providers text language s).2).
Proof.
  intros Hb Hk He Hexp Hc Hp Ha Ho.
  assert (AudioManager.speak providers text language s
          = (Return true,
             {| AudioManager.manager :=
                  {| AudioManager.enableCaching := true;
                     AudioManager.cacheExpiry :=
                       AudioManager.cacheExpiry (AudioManager.manager s);
                     AudioManager.fallbackToLocal :=
                       AudioManager.fallbackToLocal (AudioManager.manager s);
                     AudioManager.cache :=
                       filter
                         (λ kv, ¬ (AudioManager.clock s + elapsed
                                   - AudioManager.timestamp kv.2
                                   > AudioManager.cacheExpiry
                                       (AudioManager.manager s))%Z)
                         (<[k := {| AudioManager.itemText := text;
                                    AudioManager.itemLanguage := language;
                                    AudioManager.timestamp :=
                                      AudioManager.clock s + elapsed;
                                    AudioManager.data := None |}]>
                            (AudioManager.cache (AudioManager.manager s))) |};
                AudioManager.clock := AudioManager.clock s + elapsed;
                AudioManager.history :=
                  AudioManager.history s
                  ++ [AudioManager.EvProviderSpeak text language] |})) as Hs.
  { cbv [AudioManager.speak bind]. rewrite Hb, Hk.
    cbv [AudioManager.cacheTier bind AudioManager.getManager get ret].
    rewrite He, Hc.
    cbv [AudioManager.providerTier]. rewrite Hp, Ha.
    cbv [bind AudioManager.await get put ret]. rewrite Ho.
    cbv [AudioManager.getManager bind get ret AudioManager.manager fst snd].
    destruct s as [m clk hist].
    cbv [AudioManager.manager] in He. rewrite He.
    cbv [AudioManager.cacheAudioRequest AudioManager.cleanupCache
         AudioManager.dateNow AudioManager.getManager AudioManager.setCache
         AudioManager.withCache bind get put ret AudioManager.manager
         AudioManager.clock AudioManager.history AudioManager.enableCaching
         AudioManager.cacheExpiry AudioManager.fallbackToLocal
         AudioManager.cache].
    destruct m as [en ex fb ca]. cbv [AudioManager.enableCaching] in He.
    by subst en. }
  rewrite Hs. split; [done|]. split; [done|].
  eapply speak_cache_fresh.
  - done.
  - by eapply getCacheKey_any_state.
  - done.
  - simpl. apply map_lookup_filter_Some. split.
    + by rewrite lookup_insert_eq.
    + simpl. lia.
  - simpl. lia.
Qed.

Lemma manager_speak_repeat_is_answered_from_cache_witness :
  (AudioManager.speak cloudOnly (units "labas") (units "lithuanian")
     freshManager).1 = Return true
  ∧ AudioManager.history
      (AudioManager.speak cloudOnly (units "labas") (units "lithuanian")
         freshManager).2
    = AudioManager.history freshManager
      ++ [AudioManager.EvProviderSpeak (units "labas") (units "lithuanian")]
  ∧ AudioManager.speak noProviders (units "labas") (units "lithuanian")
      (AudioManager.speak cloudOnly (units "labas") (units "lithuanian")
         freshManager).2
    = (Return true,
       (AudioManager.speak cloudOnly (units "labas") (units "lithuanian")
          freshManager).2).
Proof.
  apply (manager_speak_repeat_is_answered_from_cache cloudOnly noProviders
           promptProvider (units "labas") (units "lithuanian")
           (units "lithuanian_bGFiYXM=") 1200 freshManager);
    first [reflexivity | vm_compute; reflexivity].
Defined.

(** ** Keys of keys *)

Section KeyFacts.
Lemma replaceAll_lower c r s :
  (122 < c)%N → Forall isLowerAscii s → replaceAll c r s = s.
Proof.
  intros Hc. unfold replaceAll. induction 1 as [|x s Hx _ IH]; [done|].
  rewrite fmap_cons, IH. f_equal.
  unfold isLowerAscii in Hx. destruct (N.eqb_spec x c); [lia|done].
Qed.

Lemma stripNonLower_lower_id s : Forall isLowerAscii s → stripNonLower s = s.
Proof.
  unfold stripNonLower. induction 1 as [|x s Hx _ IH]; [done|].
  rewrite filter_cons_True by exact Hx. by rewrite IH.
Qed.

Lemma toLowerCaseLatin_lower s :
  Forall isLowerAscii s → toLowerCaseLatin s = s.
Proof.
  unfold toLowerCaseLatin. induction 1 as [|x s Hx _ IH]; [done|].
  rewrite bind_cons, IH. unfold isLowerAscii in Hx. unfold lowerUnit.
  destruct (N.leb_spec 65 x); [|lia]. destruct (N.leb_spec x 90); [lia|].
  simpl. destruct (N.leb_spec 192 x); [lia|]. simpl.
  destruct (N.leb_spec 256 x); [lia|]. simpl.
  destruct (N.eqb_spec x 304); [lia|].
  destruct (N.leb_spec 306 x); [lia|]. simpl.
  destruct (N.leb_spec 313 x); [lia|]. simpl.
  destruct (N.leb_spec 330 x); [lia|]. simpl.
  destruct (N.eqb_spec x 376); [lia|].
  destruct (N.leb_spec 377 x); [lia|]. done.
Qed.
End KeyFacts.

(** X30. A key is its own key: when lowercasing leaves strings of a..z as
    they are (as the built-in does), deriving the key of a key gives the
    key back. *)
Theorem generateTextKey_of_key_is_key
    (toLowerCase : jsstring → jsstring) (text : jsstring) :
  (∀ s, Forall isLowerAscii s → toLowerCase s = s) →
  Client.generateTextKey toLowerCase (Client.generateTextKey toLowerCase text)
  = Client.generateTextKey toLowerCase text.
Proof.
  intros Hlc.
  assert (Forall isLowerAscii (Client.generateTextKey toLowerCase text)) as Hk.
  { apply substring0_Forall, stripNonLower_lower. }
  assert (length (Client.generateTextKey toLowerCase text) ≤ 50) as Hlen.
  { apply substring0_length. }
  set (k := Client.generateTextKey toLowerCase text) in *.
  unfold Client.generateTextKey at 1. rewrite (Hlc k Hk).
  do 9 (rewrite (replaceAll_lower _ _ k) by (done || lia)).
  rewrite stripNonLower_lower_id by done.
  unfold substring0. by apply take_ge.
Qed.

Lemma generateTextKey_of_key_is_key_witness :
  Client.generateTextKey toLowerCaseLatin
    (Client.generateTextKey toLowerCaseLatin azuolas)
  = Client.generateTextKey toLowerCaseLatin azuolas.
Proof.
  apply generateTextKey_of_key_is_key. apply toLowerCaseLatin_lower.
Defined.
